(** * DecryptionEngine: a shallow embedding of [decryption_engine.py]

    The engine profiles a byte buffer, names the likely encryption, picks a
    recovery strategy, runs it, grades the result and caches recovered
    bytes.  Python values are embedded as follows.

    - [bytes] is [list byte]; a slice [d[:k]] is [take k d], [d[i:i+k]] is
      [take k (drop i d)], [d[::-1]] is [reverse d].
    - [int] is [Z] (or [nat]/[N] for lengths and counters).
    - [float]: values that are ratios of small integers and fixed literals
      (confidences, printable ratio) are exact rationals [Q]; values that
      go through [np.log2] or [np.std] (entropies, frequency statistics)
      are real numbers [R].  Rounding of the 64-bit floats is not modelled.
    - [dict] is [gmap]; the strategy dictionary, whose keys are fixed, is a
      record of optional fields ([d.get(k, default)] is a [match]).
    - an exception is a value of [exn]; code that can raise returns
      [result A = exn + A].
    - [random] and the clock are inputs: a tape of generator outputs with
      a cursor, and the readings of [time.time()] and [datetime.utcnow()]. *)

From Stdlib Require Import ZArith NArith QArith Qminmax Reals Psatz List String Ascii.
From Stdlib.Strings Require Import Byte.
From stdpp Require Import gmap strings list fin_maps.
Import ListNotations.

Set Default Proof Using "Type".

(** ** Python runtime *)

Module Py.

Abbreviation bytes := (list byte).

#[global] Instance byte_eq_decision : EqDecision byte := Byte.byte_eq_dec.

Definition byte_of_to_N_default (x : byte) : default x00 (Byte.of_N (Byte.to_N x)) = x :=
  eq_ind_r (fun o => default x00 o = x) (eq_refl x : default x00 (Some x) = x)
           (Byte.of_to_N x).

#[global] Instance byte_countable : Countable byte :=
  inj_countable' Byte.to_N (fun n => default x00 (Byte.of_N n)) byte_of_to_N_default.

(** The exceptions the engine can meet, with the text [str(e)] gives. *)
Inductive exn : Type :=
| IndexError (msg : string)
| ValueError (msg : string)
| ZeroDivisionError (msg : string).

Definition exn_str (e : exn) : string :=
  match e with
  | IndexError m | ValueError m | ZeroDivisionError m => m
  end.

Definition result (A : Type) : Type := (exn + A)%type.

Definition ret {A} (a : A) : result A := inr a.
Definition raise {A} (e : exn) : result A := inl e.
Definition bind {A B} (m : result A) (k : A -> result B) : result B :=
  match m with
  | inl e => inl e
  | inr a => k a
  end.

(** [b.to_bytes] as an integer in [0, 255]. *)
Definition ord (b : byte) : Z := Z.of_N (Byte.to_N b).

(** [a ^ b] on two bytes. *)
Definition byte_xor (a b : byte) : byte :=
  match Byte.of_N (N.lxor (Byte.to_N a) (Byte.to_N b)) with
  | Some c => c
  | None => x00
  end.

(** The byte of an integer taken modulo 256. *)
Definition byte_of_Z (z : Z) : byte :=
  match Byte.of_N (Z.to_N (z mod 256)) with
  | Some c => c
  | None => x00
  end.

(** A [bytes] literal written with printable characters only. *)
Definition b (s : string) : bytes := String.list_byte_of_string s.

(** [data.startswith(prefix)] *)
Fixpoint startswith {A} `{EqDecision A} (data prefix : list A) {struct prefix} : bool :=
  match prefix, data with
  | [], _ => true
  | _ :: _, [] => false
  | p :: prefix', d :: data' => if decide (d = p) then startswith data' prefix' else false
  end.

(** [data.endswith(suffix)] *)
Definition endswith {A} `{EqDecision A} (data suffix : list A) : bool :=
  startswith (reverse data) (reverse suffix).

(** [needle in haystack] for sequences. *)
Fixpoint contains {A} `{EqDecision A} (haystack needle : list A) : bool :=
  match haystack with
  | [] => match needle with [] => true | _ => false end
  | _ :: rest => startswith haystack needle || contains rest needle
  end.

Definition hex_digit (n : N) : ascii :=
  match n with
  | 0 => "0" | 1 => "1" | 2 => "2" | 3 => "3" | 4 => "4" | 5 => "5" | 6 => "6"
  | 7 => "7" | 8 => "8" | 9 => "9" | 10 => "a" | 11 => "b" | 12 => "c"
  | 13 => "d" | 14 => "e" | _ => "f"
  end%N%char.

(** [data.hex()] *)
Fixpoint hex (data : bytes) : string :=
  match data with
  | [] => EmptyString
  | c :: rest =>
      String (hex_digit (Byte.to_N c / 16)) (String (hex_digit (Byte.to_N c mod 16)) (hex rest))
  end.

(** The elements of [range(start, stop, step)] for a step that is not zero. *)
Definition range_step (start stop step : Z) : list Z :=
  let count :=
    (if 0 <? step then (stop - start + step - 1) / step
     else (start - stop - step - 1) / (- step))%Z in
  map (fun k : nat => start + Z.of_nat k * step)%Z (seq 0 (Z.to_nat count)).

(** [range(start, stop, step)]; a zero step raises. *)
Definition range3 (start stop step : Z) : result (list Z) :=
  if (step =? 0)%Z then raise (ValueError "range() arg 3 must not be zero")
  else ret (range_step start stop step).

(** [range(start, stop)] *)
Definition range2 (start stop : Z) : list Z :=
  map (fun k : nat => start + Z.of_nat k)%Z (seq 0 (Z.to_nat (stop - start))).

(** [l[i]] for [i >= 0]; out of range raises. *)
Definition index {A} (l : list A) (i : nat) : result A :=
  match l !! i with
  | Some x => ret x
  | None => raise (IndexError "list index out of range")
  end.

Definition Qltb (x y : Q) : bool := negb (Qle_bool y x).

(** [min(x, y)] of two numbers: the first of the smallest. *)
Definition min2 (x y : Q) : Q := if Qltb y x then y else x.

(** Decimal digits of a natural number, most significant first, padded
    with zeros to [width]. *)
Definition digit (n : nat) : ascii := ascii_of_nat (48 + n mod 10).

Fixpoint digits_pad (width n : nat) : string :=
  match width with
  | O => EmptyString
  | S w => digits_pad w (n / 10) +:+ String (digit n) EmptyString
  end.

Fixpoint digits_fuel (fuel n : nat) : string :=
  match fuel with
  | O => EmptyString
  | S f =>
      if (n <? 10)%nat then String (digit n) EmptyString
      else digits_fuel f (n / 10) +:+ String (digit n) EmptyString
  end.

(** [str(z)] for an integer. *)
Definition str_int (z : Z) : string :=
  let n := Z.abs_nat z in
  let body := digits_fuel (S n) n in
  if (z <? 0)%Z then String "-" body else body.

(** *** Text: [bytes.decode('utf-8', errors='ignore')], [str.strip], [str(bytes)]

    A Python [str] is the list of its code points.  The decoder reads one
    byte at a time; a sequence that breaks off is dropped and the byte that
    broke it is read again as the start of a new one, which is what the
    [ignore] handler does with the error ranges the codec reports. *)

Abbreviation text := (list N).

Inductive utf8_state : Type :=
| U_idle
| U_pending (need : nat) (lo hi acc : N).

Definition utf8_lead (c : N) : list N * utf8_state :=
  (if c <? 0x80 then ([c], U_idle)
   else if c <? 0xC2 then ([], U_idle)
   else if c <? 0xE0 then ([], U_pending 1 0x80 0xBF (N.land c 0x1F))
   else if c <? 0xF0 then
     ([], U_pending 2 (if c =? 0xE0 then 0xA0 else 0x80)
                      (if c =? 0xED then 0x9F else 0xBF) (N.land c 0x0F))
   else if c <? 0xF5 then
     ([], U_pending 3 (if c =? 0xF0 then 0x90 else 0x80)
                      (if c =? 0xF4 then 0x8F else 0xBF) (N.land c 0x07))
   else ([], U_idle))%N.

Definition utf8_step (st : utf8_state) (c : N) : list N * utf8_state :=
  match st with
  | U_idle => utf8_lead c
  | U_pending need lo hi acc =>
      if ((lo <=? c) && (c <=? hi))%N then
        let acc' := N.lor (N.shiftl acc 6) (N.land c 0x3F) in
        match need with
        | S (S n) => ([], U_pending (S n) 0x80 0xBF acc')
        | _ => ([acc'], U_idle)
        end
      else utf8_lead c
  end.

Fixpoint utf8_run (st : utf8_state) (data : bytes) : text :=
  match data with
  | [] => []
  | c :: rest =>
      let '(out, st') := utf8_step st (Byte.to_N c) in
      out ++ utf8_run st' rest
  end.

Definition decode_utf8_ignore (data : bytes) : text := utf8_run U_idle data.

(** A [str] literal of ASCII characters. *)
Definition u (s : string) : text := map Byte.to_N (String.list_byte_of_string s).

(** [ch.isspace()] *)
Definition isspace (c : N) : bool :=
  ((0x09 <=? c) && (c <=? 0x0D) || (0x1C <=? c) && (c <=? 0x20)
   || (c =? 0x85) || (c =? 0xA0) || (c =? 0x1680)
   || (0x2000 <=? c) && (c <=? 0x200A)
   || (c =? 0x2028) || (c =? 0x2029) || (c =? 0x202F) || (c =? 0x205F)
   || (c =? 0x3000))%N.

Fixpoint lstrip (s : text) : text :=
  match s with
  | [] => []
  | c :: rest => if isspace c then lstrip rest else s
  end.

(** [s.strip()] *)
Definition strip (s : text) : text := reverse (lstrip (reverse (lstrip s))).

(** One byte of [repr(data)] inside the quotes. *)
Definition repr_byte (quote : byte) (c : byte) : string :=
  if bool_decide (c = quote) || bool_decide (c = "\"%byte) then
    String "\" (String (ascii_of_byte c) EmptyString)
  else if bool_decide (c = x09) then "\t"
  else if bool_decide (c = x0a) then "\n"
  else if bool_decide (c = x0d) then "\r"
  else if ((Byte.to_N c <? 0x20) || (0x7F <=? Byte.to_N c))%N then
    String "\" (String "x" (hex [c]))
  else String (ascii_of_byte c) EmptyString.

(** [str(data)] for a [bytes] object: the literal that denotes it. *)
Definition str_bytes (data : bytes) : string :=
  let quote : byte :=
    if bool_decide ("'"%byte ∈ data) && negb (bool_decide (x22 ∈ data)) then x22 else "'"%byte in
  String "b" (String (ascii_of_byte quote)
    (foldr (fun c acc => repr_byte quote c +:+ acc) (String (ascii_of_byte quote) EmptyString) data)).

(** *** The random module and the clock

    The generator is a tape of its successive raw outputs and a cursor. *)

Record rng : Type := { tape : nat -> Z; cursor : nat }.

Definition advance (g : rng) : rng := {| tape := tape g; cursor := S (cursor g) |}.

(** [random.randint(lo, hi)] *)
Definition randint (lo hi : Z) (g : rng) : Z * rng :=
  ((lo + tape g (cursor g) mod (hi - lo + 1))%Z, advance g).

(** [random.random()]: a multiple of 2^-53 in [0, 1). *)
Definition random (g : rng) : Q * rng :=
  (Qmake (tape g (cursor g) mod 2 ^ 53) (2 ^ 53), advance g).

(** The literal [0.7] where it is compared with a draw of [random.random()]:
    the 64-bit float nearest to 7/10, [0x1.6666666666666p-1], which is
    [6305039478318694 / 2^53] and lies below 7/10.  The draw
    [6305039478318694 / 2^53] is below 7/10 but not below this float. *)
Definition float_0_7 : Q := 6305039478318694 # 2 ^ 53.

Record datetime : Type :=
  { year : nat; month : nat; day : nat; hour : nat; minute : nat; second : nat;
    microsecond : nat }.

(** [t.strftime('%Y%m%d%H%M%S')], for the years from 1000 on, which are
    those a clock reading has.  Below 1000 the C library decides whether
    [%Y] is padded to four digits; here it is. *)
Definition strftime_YmdHMS (t : datetime) : string :=
  digits_pad 4 (year t) +:+ digits_pad 2 (month t) +:+ digits_pad 2 (day t)
  +:+ digits_pad 2 (hour t) +:+ digits_pad 2 (minute t) +:+ digits_pad 2 (second t).

(** What the clock shows during one call: [time.time()] on entry and on
    exit, and [datetime.utcnow()]. *)
Record clock : Type := { time_start : Q; time_end : Q; utcnow : datetime }.

End Py.

Import Py.

Notation "x <- m ;; k" := (Py.bind m (fun x => k))
  (at level 100, m at next level, right associativity).

(** ** Statistical profiler *)

#[global] Instance R_eq_decision : EqDecision R := Req_dec_T.

(** [np.log2] *)
Definition log2 (x : R) : R := (ln x / ln 2)%R.

(** [np.zeros(256, dtype=int)] after [byte_counts[byte] += 1] for every
    byte of [data]. *)
Definition byte_counts (data : bytes) : list nat :=
  foldl (fun counts byte => alter S (N.to_nat (Byte.to_N byte)) counts)
        (replicate 256 0%nat) data.

(** [byte_counts / len(data)] *)
Definition frequencies_of (data : bytes) : list R :=
  map (fun c : nat => (INR c / INR (length data))%R) (byte_counts data).

(** The loop [entropy -= p * np.log2(p)] over the 256 frequencies, in exact
    arithmetic: the value the floating-point loop approximates. *)
Definition _calculate_entropy (data : bytes) : R :=
  if bool_decide (data = []) then 0%R
  else
    let probabilities := frequencies_of data in
    foldl (fun entropy p => if Rgt_dec p 0 then (entropy - p * log2 p)%R else entropy)
          0%R probabilities.

(** Reductions of a numpy array.  [np.min] and [np.max] of an empty array
    raise; the mean and the deviation are only taken after [np.min] has
    succeeded on the same array. *)
Definition np_sum (a : list R) : R := foldr Rplus 0%R a.

Definition np_max (a : list R) : result R :=
  match a with
  | [] => raise (ValueError "zero-size array to reduction operation maximum which has no identity")
  | x :: rest => ret (foldl Rmax x rest)
  end.

Definition np_min (a : list R) : result R :=
  match a with
  | [] => raise (ValueError "zero-size array to reduction operation minimum which has no identity")
  | x :: rest => ret (foldl Rmin x rest)
  end.

Definition np_mean (a : list R) : R := (np_sum a / INR (length a))%R.

Definition np_std (a : list R) : R :=
  let m := np_mean a in
  sqrt (np_mean (map (fun x => Rsqr (x - m)) a)).

(** [a[np.nonzero(a)]] *)
Definition nonzero (a : list R) : list R :=
  filter (fun x => x <> 0%R) a.

Record ByteDistribution : Type :=
  { max_frequency : R; min_frequency : R; mean_frequency : R; std_frequency : R;
    zero_bytes_ratio : R; is_uniform : bool }.

(** The result is [None] for the empty dictionary returned on empty data. *)
Definition _analyze_byte_distribution (data : bytes) : result (option ByteDistribution) :=
  if (length data =? 0)%nat then ret None
  else
    let counts := byte_counts data in
    let frequencies := frequencies_of data in
    max_freq <- np_max frequencies ;;
    min_freq <- np_min (nonzero frequencies) ;;
    let mean_freq := np_mean (nonzero frequencies) in
    let std_freq := np_std (nonzero frequencies) in
    count0 <- index counts 0 ;;
    let zero_ratio := (INR count0 / INR (length data))%R in
    let uniform := if Rlt_dec std_freq (2 / 1000) then true else false in
    ret (Some {| max_frequency := max_freq; min_frequency := min_freq;
                 mean_frequency := mean_freq; std_frequency := std_freq;
                 zero_bytes_ratio := zero_ratio; is_uniform := uniform |}).

Record HeaderAnalysis : Type :=
  { header_hex : option string; identified : bool; file_type : string;
    possible_encryption : option bool; header_entropy : option R }.

Definition PK34 : bytes := b "PK" ++ [x03; x04].
Definition PNG_MAGIC : bytes := [x89] ++ b "PNG" ++ [x0d; x0a; x1a; x0a].
Definition JPEG_MAGIC : bytes := [xff; xd8; xff].

(** [0x20 <= b <= 0x7E or b in [0x9, 0xA, 0xD]] *)
Definition printable (c : byte) : bool :=
  ((32 <=? ord c) && (ord c <=? 126)
   || bool_decide (ord c ∈ [9; 10; 13]))%Z.

Definition _analyze_file_header (data : bytes) : HeaderAnalysis :=
  if (length data <? 16)%nat then
    {| header_hex := None; identified := false; file_type := "unknown";
       possible_encryption := None; header_entropy := None |}
  else
    let header := take 16 data in
    let known ft :=
      {| header_hex := Some (hex header); identified := true; file_type := ft;
         possible_encryption := None; header_entropy := None |} in
    if startswith header PK34 then known "zip"
    else if startswith header PNG_MAGIC then known "png"
    else if startswith header (b "%PDF") then known "pdf"
    else if startswith header (b "MZ") then known "exe"
    else if startswith header JPEG_MAGIC then known "jpeg"
    else if forallb printable header then known "text"
    else
      let h := _calculate_entropy header in
      if Rgt_dec h 7 then
        {| header_hex := Some (hex header); identified := false; file_type := "unknown";
           possible_encryption := Some true; header_entropy := Some h |}
      else
        {| header_hex := Some (hex header); identified := false; file_type := "unknown";
           possible_encryption := None; header_entropy := None |}.

(** The dictionary [blocks] of [_has_repeating_blocks] after its loop. *)
Definition count_blocks (data : bytes) (block_size : Z) (starts : list Z)
  : gmap bytes nat :=
  foldl (fun (blocks : gmap bytes nat) i =>
           let block := take (Z.to_nat block_size) (drop (Z.to_nat i) data) in
           match blocks !! block with
           | Some n => <[block := S n]> blocks
           | None => <[block := 1%nat]> blocks
           end)
        ∅ starts.

Definition _has_repeating_blocks (data : bytes) (block_size : Z) : result bool :=
  if (Z.of_nat (length data) <? block_size * 2)%Z then ret false
  else
    starts <- range3 0 (Z.of_nat (length data) - block_size) block_size ;;
    let blocks := count_blocks data block_size starts in
    ret (existsb (fun count => (3 <? count)%nat) (map snd (map_to_list blocks))).

(** The set of the values of a list, as [set(...)] builds it. *)
Definition py_set (l : list Z) : gset Z := list_to_set l.

Definition _check_xor_pattern (data : bytes) : result bool :=
  if (length data <? 100)%nat then ret false
  else
    let samples :=
      omap (fun i => ord <$> data !! Z.to_nat i)
           (range_step 0 (Z.of_nat (Nat.min 1000 (length data))) 10) in
    let xor_values :=
      omap (fun i : Z =>
              match samples !! Z.to_nat i, samples !! Z.to_nat (i + 1) with
              | Some x, Some y => Some (Z.lxor x y)
              | _, _ => None
              end)
           (range2 0 (Z.of_nat (length samples) - 1)) in
    let unique_xors := py_set xor_values in
    if (length xor_values =? 0)%nat then raise (ZeroDivisionError "division by zero")
    else ret (Qltb (Z.of_nat (size unique_xors) # Pos.of_nat (length xor_values)) (1 # 2)).

Definition common_markers : list string :=
  [ ".encrypted"; ".locked"; ".crypt"; ".crypto"; ".enc";
    "DECRYPT_INSTRUCTION"; "HOW_TO_DECRYPT"; "YOUR_FILES_ARE_ENCRYPTED" ].

Definition _check_ransomware_markers (data : bytes) : bool :=
  let data_str := String.list_ascii_of_string (str_bytes data) in
  existsb (fun marker => contains data_str (String.list_ascii_of_string marker))
          common_markers.

Record PatternAnalysis : Type :=
  { has_repeating_blocks : bool; possible_xor : bool; has_ransomware_markers : bool }.

Definition _detect_encryption_patterns (data : bytes) : result PatternAnalysis :=
  rb <- _has_repeating_blocks data 16 ;;
  px <- _check_xor_pattern data ;;
  ret {| has_repeating_blocks := rb; possible_xor := px;
         has_ransomware_markers := _check_ransomware_markers data |}.

(** ** Classifier and strategy selector *)

Definition _determine_encryption_type
    (entropy : R) (byte_distribution : option ByteDistribution)
    (header_analysis : HeaderAnalysis) (pattern_analysis : PatternAnalysis) : string :=
  if Rgt_dec entropy (78 / 10) then
    if has_repeating_blocks pattern_analysis then "AES-ECB"
    else if from_option is_uniform false byte_distribution then "Strong encryption (AES/RSA)"
    else "Strong encryption (unknown type)"
  else if Rgt_dec entropy 7 then
    if possible_xor pattern_analysis then "XOR encryption"
    else "Medium-strength encryption (possibly RC4, DES)"
  else if Rgt_dec entropy 6 then
    if negb (bool_decide (file_type header_analysis = "unknown")) then
      "Weak encryption over " +:+ file_type header_analysis +:+ " file"
    else "Simple encryption or encoding"
  else
    if has_ransomware_markers pattern_analysis then
      "Possible ransomware marker, no strong encryption"
    else "No encryption detected".

(** The strategy dictionary.  A field is [None] when its key is absent. *)
Record Strategy : Type :=
  { strategy_success_probability : option Q;
    strategy_name : option string;
    strategy_description : option string;
    strategy_key_size_range : option (list Z);
    strategy_file_type : option string;
    strategy_block_size : option Z }.

Definition empty_strategy : Strategy :=
  {| strategy_success_probability := Some 0%Q; strategy_name := None;
     strategy_description := None; strategy_key_size_range := None;
     strategy_file_type := None; strategy_block_size := None |}.

Definition str_contains (s sub : string) : bool :=
  contains (String.list_ascii_of_string s) (String.list_ascii_of_string sub).

Definition str_startswith (s pre : string) : bool :=
  startswith (String.list_ascii_of_string s) (String.list_ascii_of_string pre).

Definition _develop_decryption_strategy
    (encryption_type : string) (entropy : R) (byte_distribution : option ByteDistribution)
    (header_analysis : HeaderAnalysis) (pattern_analysis : PatternAnalysis) : Strategy :=
  if str_contains encryption_type "XOR" then
    {| strategy_success_probability := Some (7 # 10);
       strategy_name := Some "xor_bruteforce";
       strategy_description := Some "Attempt XOR decryption with various keys";
       strategy_key_size_range := Some [1; 8]%Z;
       strategy_file_type := None; strategy_block_size := None |}
  else if str_startswith encryption_type "Weak encryption" && identified header_analysis then
    {| strategy_success_probability := Some (6 # 10);
       strategy_name := Some "known_header_analysis";
       strategy_description := Some "Use known file headers to recover encryption key";
       strategy_key_size_range := None;
       strategy_file_type := Some (file_type header_analysis);
       strategy_block_size := None |}
  else if has_repeating_blocks pattern_analysis then
    {| strategy_success_probability := Some (5 # 10);
       strategy_name := Some "pattern_based_recovery";
       strategy_description := Some "Use repeating patterns to break the encryption";
       strategy_key_size_range := None; strategy_file_type := None;
       strategy_block_size := Some 16%Z |}
  else if (if Rgt_dec entropy 7 then true else false)
          && negb (from_option is_uniform false byte_distribution) then
    {| strategy_success_probability := Some (3 # 10);
       strategy_name := Some "partial_key_recovery";
       strategy_description := Some "Attempt to recover partial encryption key";
       strategy_key_size_range := None; strategy_file_type := None;
       strategy_block_size := None |}
  else
    {| strategy_success_probability := Some (2 # 10);
       strategy_name := Some "generic_recovery";
       strategy_description := Some "Try multiple common decryption techniques";
       strategy_key_size_range := None; strategy_file_type := None;
       strategy_block_size := None |}.

(** What a caller hands over: a [BytesIO] object or a [bytes] object.  (The
    text case, which goes through [str.encode], is not part of the byte
    buffer interface and is left out.) *)
Inductive file_content : Type :=
| BytesIO (value : bytes)
| Bytes (value : bytes).

Definition content_of (fc : file_content) : bytes :=
  match fc with
  | BytesIO v => v
  | Bytes v => v
  end.

Record Analysis : Type :=
  { encryption_type : string; file_size : nat; entropy : R; analysis_time : Q;
    strategy : Strategy }.

(** [analyze_encryption]: the handler logs and raises again, so an exception
    of the body is an exception of the call. *)
Definition analyze_encryption (clk : clock) (fc : file_content) : result Analysis :=
  let content := content_of fc in
  let size := length content in
  let e := _calculate_entropy content in
  byte_distribution <- _analyze_byte_distribution content ;;
  let header_analysis := _analyze_file_header content in
  pattern_analysis <- _detect_encryption_patterns content ;;
  let etype := _determine_encryption_type e byte_distribution header_analysis pattern_analysis in
  let strat :=
    _develop_decryption_strategy etype e byte_distribution header_analysis pattern_analysis in
  ret {| encryption_type := etype; file_size := size; entropy := e;
         analysis_time := (time_end clk - time_start clk)%Q; strategy := strat |}.

(** ** Plausibility scorer and the XOR transform *)

Definition _xor_decrypt (data key : bytes) : bytes :=
  if bool_decide (key = []) then data
  else imap (fun i c => byte_xor c (default x00 (key !! (i mod length key)%nat))) data.

(** The bonus for a recognised file signature. *)
Definition signature_score (data : bytes) : Z :=
  if startswith data PK34 then 50
  else if startswith data PNG_MAGIC then 50
  else if startswith data (b "%PDF") then 50
  else if startswith data (b "MZ") then 40
  else if startswith data JPEG_MAGIC then 50
  else 0.

(** [sum(printable(b) for b in sample) / len(sample)] for the sample
    [data[:min(1000, len(data))]]. *)
Definition printable_ratio (data : bytes) : Q :=
  let n := Nat.min 1000 (length data) in
  let sample := take n data in
  Z.of_nat (length (filter (fun c => printable c = true) sample)) # Pos.of_nat n.

(** The bonus for a sample that reads as HTML, XML or a JSON object. *)
Definition markup_score (data : bytes) : Z :=
  let text_sample := decode_utf8_ignore (take (Nat.min 1000 (length data)) data) in
  if startswith text_sample (u "<!DOCTYPE") || startswith text_sample (u "<html") then 20
  else if startswith text_sample (u "<?xml") then 20
  else if startswith text_sample (u "{") && endswith (strip text_sample) (u "}") then 15
  else 0.

Definition text_score (data : bytes) : Z :=
  if Qltb (9 # 10) (printable_ratio data) then 40 + markup_score data else 0.

Definition entropy_score (data : bytes) : Z :=
  let e := _calculate_entropy (take (Nat.min 1000 (length data)) data) in
  if Rlt_dec e 6 then 20
  else if Rlt_dec e 7 then 10
  else 0.

Definition _score_decryption_result (data : option bytes) : Z :=
  match data with
  | None => 0
  | Some data =>
      if (length data =? 0)%nat then 0
      else Z.min (signature_score data + text_score data + entropy_score data) 100
  end.

(** ** Recovery strategies *)

(** Computations that draw random numbers and can raise. *)
Definition M (A : Type) : Type := rng -> result A * rng.

Definition mret {A} (a : A) : M A := fun g => (inr a, g).

Definition mbind {A B} (m : M A) (k : A -> M B) : M B :=
  fun g =>
    match m g with
    | (inl e, g') => (inl e, g')
    | (inr a, g') => k a g'
    end.

Definition lift {A} (r : result A) : M A := fun g => (r, g).

Definition draw {A} (f : rng -> A * rng) : M A :=
  fun g => let '(a, g') := f g in (inr a, g').

Notation "x <~ m ;; k" := (mbind m (fun x => k))
  (at level 100, m at next level, right associativity).

(** The values stored in the [details] dictionary. *)
Inductive pyval : Type :=
| PNone
| PBool (v : bool)
| PInt (v : Z)
| PFloat (v : Q)
| PReal (v : R)
| PStr (v : string).

Abbreviation dict := (gmap string pyval).

(** What a strategy returns: [decrypted_content, confidence, key_found, details]. *)
Definition recovery : Type := (option bytes * Q * bool * dict)%type.

(** One chunk of a simulated partial decryption. *)
Definition simulate_chunk (content : bytes) (i : Z) (g : rng) : bytes * rng :=
  let chunk := take 1024 (drop (Z.to_nat i) content) in
  let '(r, g') := random g in
  if Qltb r float_0_7 then
    if (i =? 0)%Z then
      if (8 <=? length chunk)%nat then (b "DECRYPTED" ++ drop 8 chunk, g')
      else if (4 <=? length chunk)%nat then (b "DECR" ++ drop 4 chunk, g')
      else (chunk, g')
    else (map (fun c => byte_of_Z (ord c + i)) chunk, g')
  else (chunk, g').

Fixpoint simulate_chunks (content : bytes) (starts : list Z) (g : rng) : list bytes * rng :=
  match starts with
  | [] => ([], g)
  | i :: rest =>
      let '(part, g1) := simulate_chunk content i g in
      let '(parts, g2) := simulate_chunks content rest g1 in
      (part :: parts, g2)
  end.

(** The text that stands for a fully decrypted file. *)
Definition simulated_text : bytes :=
  foldl (fun acc i =>
           acc ++ b ("BLOCK " +:+ str_int i +:+ ": Decrypted content line " +:+ str_int i)
               ++ [x0a])
        (b "DECRYPTED_FILE_CONTENT" ++ [x0a; x0a]) (range2 0 20).

Definition _create_simulated_decryption (content : bytes) (partial : bool) (g : rng)
  : bytes * rng :=
  if partial then
    let '(parts, g') :=
      simulate_chunks content (range_step 0 (Z.of_nat (length content)) 1024) g in
    (concat parts, g')
  else
    let result := simulated_text in
    if (length result <? length content)%nat then
      (result ++ replicate (length content - length result) " "%byte, g)
    else (take (length content) result, g).

(** [bytes([random.randint(0, 255) for _ in range(key_size)])] *)
Fixpoint random_key (n : nat) (g : rng) : bytes * rng :=
  match n with
  | O => ([], g)
  | S n' =>
      let '(z, g1) := randint 0 255 g in
      let '(rest, g2) := random_key n' g1 in
      (byte_of_Z z :: rest, g2)
  end.

(** The best candidate seen so far in a search. *)
Record best : Type :=
  { best_score : Z; best_key : option bytes; best_result : option bytes }.

Definition no_best : best :=
  {| best_score := -1; best_key := None; best_result := None |}.

(** One pass of the inner loop of the brute force. *)
Definition xor_attempt (content : bytes) (key_size : Z) (st : best) (g : rng) : best * rng :=
  let '(key, g') := random_key (Z.to_nat key_size) g in
  let decrypted := _xor_decrypt content key in
  let score := _score_decryption_result (Some decrypted) in
  if (best_score st <? score)%Z then
    ({| best_score := score; best_key := Some key; best_result := Some decrypted |}, g')
  else (st, g').

Fixpoint xor_attempts (content : bytes) (key_size : Z) (attempts : list Z) (st : best)
    (g : rng) : best * rng :=
  match attempts with
  | [] => (st, g)
  | _ :: rest =>
      let '(st', g') := xor_attempt content key_size st g in
      xor_attempts content key_size rest st' g'
  end.

Fixpoint xor_search (content : bytes) (key_sizes : list Z) (st : best) (g : rng)
  : best * rng :=
  match key_sizes with
  | [] => (st, g)
  | key_size :: rest =>
      let '(st', g') := xor_attempts content key_size (range2 0 10) st g in
      xor_search content rest st' g'
  end.

(** [min(best_score / 100.0, 1.0) if best_score > 0 else 0.0] *)
Definition score_confidence (score : Z) : Q :=
  if (0 <? score)%Z then min2 (score # 100) 1 else 0.

(** [x if x else y] for a [bytes] object or [None]. *)
Definition truthy (x : option bytes) : bool :=
  match x with
  | Some (_ :: _) => true
  | _ => false
  end.

Definition _apply_xor_bruteforce (content : bytes) (strat : Strategy) : M recovery :=
  let key_size_range := default [1; 4]%Z (strategy_key_size_range strat) in
  lo <~ lift (index key_size_range 0) ;;
  hi <~ lift (index key_size_range 1) ;;
  st <~ draw (xor_search content (range2 lo (hi + 1)) no_best) ;;
  let confidence := score_confidence (best_score st) in
  let found := Qltb (5 # 10) confidence in
  let details : dict :=
    <["score" := PInt (best_score st)]>
    (<["decryption_method" := PStr "XOR"]>
    (<["key_hex" := if truthy (best_key st)
                    then PStr (hex (default [] (best_key st))) else PNone]>
    (<["key_size" := if truthy (best_key st)
                     then PInt (Z.of_nat (length (default [] (best_key st)))) else PInt 0]>
     ∅))) in
  if Qltb confidence (4 # 10) then
    decrypted_content <~ draw (_create_simulated_decryption content false) ;;
    mret (Some decrypted_content, 75 # 100, true,
          <["note" := PStr "Simulated successful decryption for demonstration purposes"]>
            details)
  else mret (best_result st, confidence, found, details).

Definition known_headers : gmap string bytes :=
  list_to_map
    [ ("zip", PK34); ("png", PNG_MAGIC); ("pdf", b "%PDF-1."); ("exe", b "MZ");
      ("jpeg", JPEG_MAGIC); ("text", b "<!DOCTYPE") ].

(** The result the header analysis falls back on. *)
Definition simulated_header_analysis (content : bytes) : M recovery :=
  decrypted_content <~ draw (_create_simulated_decryption content true) ;;
  mret (Some decrypted_content, 6 # 10, true,
        <["note" := PStr "Simulated partial decryption for demonstration purposes"]>
        (<["decryption_method" := PStr "Header-based analysis"]> (∅ : dict))).

Definition _apply_known_header_analysis (content : bytes) (strat : Strategy) : M recovery :=
  let ft := default "unknown" (strategy_file_type strat) in
  match known_headers !! ft with
  | Some expected_header =>
      let header_len := length expected_header in
      if (length content <? header_len)%nat then
        mret (None, 0%Q, false, <["error" := PStr "Content too short"]> (∅ : dict))
      else
        let encrypted_header := take header_len content in
        let key := zip_with byte_xor encrypted_header expected_header in
        let decrypted := _xor_decrypt content key in
        if startswith decrypted expected_header then
          mret (Some decrypted, 8 # 10, true,
                <["file_type" := PStr ft]>
                (<["decryption_method" := PStr "Header-based XOR"]>
                (<["key_hex" := PStr (hex key)]> (∅ : dict))))
        else simulated_header_analysis content
  | None => simulated_header_analysis content
  end.

(** The dictionary [block_map]: the positions of every distinct block. *)
Definition map_blocks (blocks : list bytes) : gmap bytes (list nat) :=
  foldl (fun (block_map : gmap bytes (list nat)) '(i, block) =>
           match block_map !! block with
           | Some positions => <[block := positions ++ [i]]> block_map
           | None => <[block := [i]]> block_map
           end)
        ∅ (imap (fun i block => (i, block)) blocks).

Definition _apply_pattern_based_recovery (content : bytes) (strat : Strategy) : M recovery :=
  let block_size := default 16%Z (strategy_block_size strat) in
  starts <~ lift (range3 0 (Z.of_nat (length content)) block_size) ;;
  let blocks :=
    map (fun i : Z => take (Z.to_nat block_size) (drop (Z.to_nat i) content)) starts in
  let block_map := map_blocks blocks in
  let repeating_blocks := filter (fun kv => (1 < length kv.2)%nat) block_map in
  decrypted_content <~ draw (_create_simulated_decryption content true) ;;
  let confidence :=
    ((4 # 10) + (Z.of_nat (size repeating_blocks) # Pos.of_nat (Nat.max (length blocks) 1))
                * (3 # 10))%Q in
  let found := Qltb (5 # 10) confidence in
  mret (Some decrypted_content, confidence, found,
        <["note" := PStr "Used repeating patterns to partially recover content"]>
        (<["total_blocks" := PInt (Z.of_nat (length blocks))]>
        (<["repeating_blocks_count" := PInt (Z.of_nat (size repeating_blocks))]>
        (<["decryption_method" := PStr "Pattern-based analysis"]> (∅ : dict))))).

Definition _apply_partial_key_recovery (content : bytes) (strat : Strategy) : M recovery :=
  let e := _calculate_entropy content in
  if Rgt_dec e (75 / 10) then
    mret (None, 3 # 10, false,
          <["note" := PStr "Unable to recover key - entropy too high"]>
          (<["entropy" := PReal e]>
          (<["decryption_method" := PStr "Partial key recovery"]> (∅ : dict))))
  else
    decrypted_content <~ draw (_create_simulated_decryption content true) ;;
    mret (Some decrypted_content, 5 # 10, true,
          <["note" := PStr "Partially recovered encryption key"]>
          (<["entropy" := PReal e]>
          (<["decryption_method" := PStr "Partial key recovery"]> (∅ : dict)))).

Definition common_keys : list bytes :=
  [ [xff]; [xaa]; [x55]; b "key"; b "password"; b "admin"; b "123456" ].

(** The loop of the generic recovery over the common keys. *)
Definition try_key (content : bytes) (st : Z * option bytes) (key : bytes)
  : Z * option bytes :=
  let decrypted := _xor_decrypt content key in
  let score := _score_decryption_result (Some decrypted) in
  if (st.1 <? score)%Z then (score, Some decrypted) else st.

Definition _apply_generic_recovery (content : bytes) (strat : Strategy) : M recovery :=
  let st := foldl (try_key content) (-1, None)%Z common_keys in
  let reversed_content := reverse content in
  let score := _score_decryption_result (Some reversed_content) in
  let st := if (st.1 <? score)%Z then (score, Some reversed_content) else st in
  let confidence := score_confidence st.1 in
  let found := Qltb (5 # 10) confidence in
  let details : dict :=
    <["note" := PStr "Applied multiple generic recovery methods"]>
    (<["score" := PInt st.1]>
    (<["decryption_method" := PStr "Generic recovery techniques"]> ∅)) in
  if Qltb confidence (3 # 10) then
    decrypted_content <~ draw (_create_simulated_decryption content true) ;;
    mret (Some decrypted_content, 4 # 10, found,
          <["note" := PStr "Simulated partial recovery for demonstration purposes"]> details)
  else mret (st.2, confidence, found, details).

(** ** The engine: executor entry point and result cache *)

Record DecryptionEngine : Type := { decryption_cache : gmap string bytes }.

(** [DecryptionEngine()] *)
Definition new_engine : DecryptionEngine := {| decryption_cache := ∅ |}.

Record Outcome : Type :=
  { success_level : string; decrypted_content : option bytes; confidence : Q;
    key_found : bool; message : string; execution_time : Q; details : dict }.

(** The strategy branch [attempt_decryption] dispatches to. *)
Definition dispatch (content : bytes) (strat : Strategy) : M recovery :=
  let strategy_type := default "unknown" (strategy_name strat) in
  if bool_decide (strategy_type = "xor_bruteforce") then _apply_xor_bruteforce content strat
  else if bool_decide (strategy_type = "known_header_analysis") then
    _apply_known_header_analysis content strat
  else if bool_decide (strategy_type = "pattern_based_recovery") then
    _apply_pattern_based_recovery content strat
  else if bool_decide (strategy_type = "partial_key_recovery") then
    _apply_partial_key_recovery content strat
  else _apply_generic_recovery content strat.

(** The grading and caching that follow the branch, for its result [r]. *)
Definition grade (self : DecryptionEngine) (clk : clock) (r : recovery)
  : Outcome * DecryptionEngine :=
  let '(content, conf, found, det) := r in
  let '(level, msg) :=
    if truthy content && Qltb (8 # 10) conf then ("full", "File successfully decrypted")
    else if truthy content && Qltb (3 # 10) conf then ("partial", "File partially decrypted")
    else ("failed", "Decryption failed, could not recover file") in
  let elapsed := (time_end clk - time_start clk)%Q in
  if truthy content && bool_decide (level ∈ ["full"; "partial"]) then
    let decryption_id := "decryption_" +:+ strftime_YmdHMS (utcnow clk) in
    ({| success_level := level; decrypted_content := content; confidence := conf;
        key_found := found; message := msg; execution_time := elapsed;
        details := <["decryption_id" := PStr decryption_id]> det |},
     {| decryption_cache :=
          <[decryption_id := default [] content]> (decryption_cache self) |})
  else
    ({| success_level := level; decrypted_content := content; confidence := conf;
        key_found := found; message := msg; execution_time := elapsed;
        details := det |},
     self).

(** The outcome the handler builds from an exception. *)
Definition failure (clk : clock) (e : exn) : Outcome :=
  {| success_level := "failed"; decrypted_content := None; confidence := 0;
     key_found := false; message := "Error during decryption: " +:+ exn_str e;
     execution_time := (time_end clk - time_start clk)%Q;
     details := <["error" := PStr (exn_str e)]> ∅ |}.

Definition attempt_decryption (self : DecryptionEngine) (clk : clock)
    (fc : file_content) (strat : Strategy) (g : rng)
  : Outcome * DecryptionEngine * rng :=
  let content := content_of fc in
  match dispatch content strat g with
  | (inr r, g') => (grade self clk r, g')
  | (inl e, g') => (failure clk e, self, g')
  end.

(** The argument of the cache lookup: any object, of which [str] is taken. *)
Inductive cache_id : Type :=
| IdStr (s : string)
| IdInt (z : Z).

Definition str_id (i : cache_id) : string :=
  match i with
  | IdStr s => s
  | IdInt z => str_int z
  end.

Definition get_decrypted_content (self : DecryptionEngine) (decryption_id : cache_id)
  : option bytes :=
  decryption_cache self !! str_id decryption_id.

(** ** The detector's helpers ([ml_detector.py])

    The functions of [RansomwareDetector] that read the buffer only.  Feature
    extraction as a whole compresses the buffer with [zlib] and the
    prediction runs a random forest; neither is embedded. *)

Module Detector.

(** [data.count(x)] for a byte value [x]; [data.count(b'\x00')] is
    [count 0 data]. *)
Definition count (x : Z) (data : bytes) : nat :=
  length (filter (fun c => ord c = x) data).

Definition _calculate_entropy (data : bytes) : R :=
  if bool_decide (data = []) then 0%R
  else
    foldl (fun entropy x =>
             let p_x := (INR (count x data) / INR (length data))%R in
             if Rgt_dec p_x 0 then (entropy + - p_x * log2 p_x)%R else entropy)
          0%R (range2 0 256).

Definition _is_pe_file (data : bytes) : bool :=
  startswith data (b "MZ") && (64 <? length data)%nat.

Definition _is_zip_file (data : bytes) : bool := startswith data PK34.

Definition _detect_encryption (data : bytes) (entropy : R) : result bool :=
  let high_entropy := if Rgt_dec entropy 7 then true else false in
  if (length data =? 0)%nat then raise (ZeroDivisionError "division by zero")
  else
    let ratio := Z.of_nat (count 0 data) # Pos.of_nat (length data) in
    let random_distribution := Qltb (45 # 100) ratio && Qltb ratio (55 # 100) in
    ret (high_entropy && random_distribution).

Definition _get_file_type (content : bytes) : string :=
  if _is_pe_file content then "Windows Executable (PE)"
  else if _is_zip_file content then "ZIP Archive"
  else if startswith content (b "%PDF") then "PDF Document"
  else if startswith content ([x89] ++ b "PNG") then "PNG Image"
  else if existsb (fun c => (ord c <? 32) && negb (ord c =? 9) && negb (ord c =? 10)
                            && negb (ord c =? 13))%Z
                  (take 1000 content)
       then "Unknown Binary"
       else "Text File".

(** The dictionary of the byte values that occur, in the order of its keys,
    with the frequency of each. *)
Definition _calculate_byte_frequency (content : bytes) : list (Z * R) :=
  let freqs := imap (fun i v => (Z.of_nat i, v)) (byte_counts content) in
  map (fun kv : Z * nat => (kv.1, (INR kv.2 / INR (length content))%R))
      (filter (fun kv : Z * nat => 0 < kv.2) freqs).

(** [min(x, y)] on floats. *)
Definition fmin (x y : R) : R := if Rlt_dec y x then y else x.

Definition _calculate_encryption_percentage
    (entropy compression_ratio : R) (byte_distribution : list (Z * R)) : R :=
  let entropy_factor := fmin (entropy / 8) 1 in
  let compression_factor := fmin (2 - compression_ratio) 1 in
  let values := map snd byte_distribution in
  let std_dev := match values with [] => 0%R | _ => np_std values end in
  let distribution_factor := (1 - fmin (std_dev * 20) 1)%R in
  let overall :=
    (5 / 10 * entropy_factor + 2 / 10 * compression_factor
     + 3 / 10 * distribution_factor)%R in
  (overall * 100)%R.

Definition _analyze_encryption_type (content : bytes) (entropy : R) : string :=
  if Rgt_dec entropy (78 / 10) then "Strong encryption (possibly AES, RSA)"
  else if Rgt_dec entropy 7 then "Medium-strength encryption (possibly RC4, DES)"
  else if Rgt_dec entropy (65 / 10) then
    "Simple encryption or encoding (possibly XOR, Base64)"
  else "Unknown or weak encryption".

End Detector.

(** ** Vocabulary of the statements

    Notions the properties below are phrased with, and the inputs at which
    they are evaluated. *)

(** The recovered buffer is present and not empty. *)
Definition present_nonempty (x : option bytes) : Prop :=
  exists data, x = Some data /\ data <> [].

(** One call of [attempt_decryption] as the caller makes it. *)
Record call : Type :=
  { call_clock : clock; call_content : file_content; call_strategy : Strategy }.

(** The calls of a list made one after the other on the same engine. *)
Fixpoint run (self : DecryptionEngine) (g : rng) (calls : list call)
  : list Outcome * DecryptionEngine * rng :=
  match calls with
  | [] => ([], self, g)
  | c :: rest =>
      let '(o, self1, g1) :=
        attempt_decryption self (call_clock c) (call_content c) (call_strategy c) g in
      let '(os, self2, g2) := run self1 g1 rest in
      (o :: os, self2, g2)
  end.

(** The attempt identifier an outcome carries in its details, if any. *)
Definition attempt_id (o : Outcome) : option string :=
  match details o !! "decryption_id" with
  | Some (PStr id) => Some id
  | _ => None
  end.

(** A generator tape, a clock reading within the second 2024-03-09 07:05:00
    UTC, and the strategy the selector builds for a weakly encrypted ZIP. *)
Definition example_rng : rng :=
  {| tape := fun n => (Z.of_nat n * 7919 + 13)%Z; cursor := 0 |}.

Definition example_clock (us : nat) : clock :=
  {| time_start := 0; time_end := 1 # 100;
     utcnow := {| year := 2024; month := 3; day := 9; hour := 7; minute := 5;
                  second := 0; microsecond := us |} |}.

Definition zip_strategy : Strategy :=
  {| strategy_success_probability := Some (6 # 10);
     strategy_name := Some "known_header_analysis";
     strategy_description := Some "Use known file headers to recover encryption key";
     strategy_key_size_range := None; strategy_file_type := Some "zip";
     strategy_block_size := None |}.

Definition first_call : call :=
  {| call_clock := example_clock 12; call_content := Bytes (b "hello world");
     call_strategy := zip_strategy |}.

Definition second_call : call :=
  {| call_clock := example_clock 4800; call_content := Bytes (b "other bytes");
     call_strategy := zip_strategy |}.

(** The candidates the brute force tries, in the order it tries them: for
    every key size, ten buffers decrypted with keys drawn from the tape. *)
Fixpoint attempts_candidates (content : bytes) (key_size : Z) (attempts : list Z)
    (g : rng) : list bytes * rng :=
  match attempts with
  | [] => ([], g)
  | _ :: rest =>
      let '(key, g1) := random_key (Z.to_nat key_size) g in
      let '(cands, g2) := attempts_candidates content key_size rest g1 in
      (_xor_decrypt content key :: cands, g2)
  end.

Fixpoint xor_candidates (content : bytes) (key_sizes : list Z) (g : rng)
  : list bytes * rng :=
  match key_sizes with
  | [] => ([], g)
  | key_size :: rest =>
      let '(cands, g1) := attempts_candidates content key_size (range2 0 10) g in
      let '(more, g2) := xor_candidates content rest g1 in
      (cands ++ more, g2)
  end.

(** The highest score of a list of candidates, [-1] when there is none. *)
Definition highest_score (candidates : list bytes) : Z :=
  foldl (fun top c => Z.max top (_score_decryption_result (Some c))) (-1)%Z candidates.

(** What the search keeps: the top score so far, and a buffer that has it. *)
Definition keeps (st : best) (top : Z) (candidates : list bytes) : Prop :=
  best_score st = top
  /\ ((-1 < top)%Z ->
      exists c, best_result st = Some c /\ c ∈ candidates
                /\ _score_decryption_result (Some c) = top).

Definition xor_strategy : Strategy :=
  {| strategy_success_probability := Some (7 # 10);
     strategy_name := Some "xor_bruteforce";
     strategy_description := Some "Attempt XOR decryption with various keys";
     strategy_key_size_range := Some [1; 8]%Z;
     strategy_file_type := None; strategy_block_size := None |}.

(** The byte distribution is flagged uniform. *)
Definition uniform (bd : option ByteDistribution) : Prop :=
  exists d, bd = Some d /\ is_uniform d = true.

(** The decision table of the classifier as the specification words it: one
    row per label, each with its entropy band and its flags. *)
Inductive classifies (e : R) (bd : option ByteDistribution) (ha : HeaderAnalysis)
    (pa : PatternAnalysis) : string -> Prop :=
| band_aes_ecb :
    (e > 78 / 10)%R -> has_repeating_blocks pa = true ->
    classifies e bd ha pa "AES-ECB"
| band_strong_uniform :
    (e > 78 / 10)%R -> has_repeating_blocks pa = false -> uniform bd ->
    classifies e bd ha pa "Strong encryption (AES/RSA)"
| band_strong_unknown :
    (e > 78 / 10)%R -> has_repeating_blocks pa = false -> ~ uniform bd ->
    classifies e bd ha pa "Strong encryption (unknown type)"
| band_xor :
    (7 < e <= 78 / 10)%R -> possible_xor pa = true ->
    classifies e bd ha pa "XOR encryption"
| band_medium :
    (7 < e <= 78 / 10)%R -> possible_xor pa = false ->
    classifies e bd ha pa "Medium-strength encryption (possibly RC4, DES)"
| band_weak :
    (6 < e <= 7)%R -> file_type ha <> "unknown" ->
    classifies e bd ha pa ("Weak encryption over " +:+ file_type ha +:+ " file")
| band_simple :
    (6 < e <= 7)%R -> file_type ha = "unknown" ->
    classifies e bd ha pa "Simple encryption or encoding"
| band_marker :
    (e <= 6)%R -> has_ransomware_markers pa = true ->
    classifies e bd ha pa "Possible ransomware marker, no strong encryption"
| band_none :
    (e <= 6)%R -> has_ransomware_markers pa = false ->
    classifies e bd ha pa "No encryption detected".

(** The number of printable bytes in the sample the scorer reads. *)
Definition printable_count (data : bytes) : nat :=
  length (filter (fun c => printable c = true) (take (Nat.min 1000 (length data)) data)).

(** The sample: the first 1000 bytes, or all of them if there are fewer. *)
Definition sample (data : bytes) : bytes := take (Nat.min 1000 (length data)) data.

(** One term of the entropy sum. *)
Definition plogp (p : R) : R := if Rgt_dec p 0 then (p * log2 p)%R else 0%R.

(** A strategy whose block size makes the pattern-based branch raise. *)
Definition zero_block_strategy : Strategy :=
  {| strategy_success_probability := Some (5 # 10);
     strategy_name := Some "pattern_based_recovery";
     strategy_description := Some "Use repeating patterns to break the encryption";
     strategy_key_size_range := None; strategy_file_type := None;
     strategy_block_size := Some 0%Z |}.

(** ** Vocabulary of the further properties *)

(** All the byte values, once each. *)
Definition all_bytes : bytes := map byte_of_Z (range2 0 256).

(** The branch returns, and its details have no [error] entry. *)
Definition clean (m : M recovery) (g : rng) : Prop :=
  exists c q f det g', m g = (inr (c, q, f, det), g') /\ det !! "error" = None.

(** A buffer of 128 different bytes that begins like a ZIP file. *)
Definition zip_sample : bytes :=
  PK34 ++ filter (fun c => c ∉ PK34) (map byte_of_Z (range2 5 131)).

(** The strategy the selector builds for repeating blocks. *)
Definition pattern_strategy : Strategy :=
  {| strategy_success_probability := Some (5 # 10);
     strategy_name := Some "pattern_based_recovery";
     strategy_description := Some "Use repeating patterns to break the encryption";
     strategy_key_size_range := None; strategy_file_type := None;
     strategy_block_size := Some 16%Z |}.

(** A branch result with bytes in it and a confidence above 0.3. *)
Definition recovers (r : recovery) : Prop :=
  truthy r.1.1.1 = true /\ (3 # 10 < r.1.1.2)%Q.

(** Every key of the cache is an identifier the engine minted. *)
Definition minted (self : DecryptionEngine) : Prop :=
  forall key, is_Some (decryption_cache self !! key) ->
              exists stamp, key = "decryption_" +:+ stamp.

(** The fields of a clock reading are in the range of a calendar date. *)
Definition calendar (t : datetime) : Prop :=
  year t < 10 ^ 4 /\ month t < 10 ^ 2 /\ day t < 10 ^ 2 /\ hour t < 10 ^ 2
  /\ minute t < 10 ^ 2 /\ second t < 10 ^ 2.

(** The characters of [repr] between the [b] and the quotes. *)
Definition repr_chars (quote : byte) (data : bytes) : list ascii :=
  String.list_ascii_of_string
    (foldr (fun c acc => repr_byte quote c +:+ acc)
           (String (ascii_of_byte quote) EmptyString) data).

(** Characters that an escape sequence of [repr] is made of. *)
Definition esc_char (a : ascii) : bool :=
  bool_decide (byte_of_ascii a ∈ x22 :: b "\'tnrx0123456789abcdef").

(** One byte is printed as itself or as a backslash followed by escape
    characters. *)
Definition repr_ok (quote c : byte) : bool :=
  match String.list_ascii_of_string (repr_byte quote c) with
  | [] => false
  | h :: t => if bool_decide (h = "\"%char) then forallb esc_char t
              else bool_decide (h = ascii_of_byte c) && bool_decide (t = [])
  end.

(** A character that [repr] prints as itself, whatever the quote. *)
Definition plain_char (a : ascii) : bool :=
  negb (bool_decide (byte_of_ascii a ∈ x22 :: b "\'"))
  && forallb (fun q => bool_decide (repr_byte q (byte_of_ascii a) = String a EmptyString))
             (x22 :: b "'").

(** A text of plain characters whose first one occurs in no escape sequence
    and is not the leading [b]. *)
Definition marker_ok (marker : string) : bool :=
  match String.list_ascii_of_string marker with
  | [] => false
  | a :: m => negb (esc_char a) && negb (bool_decide (a = "b"%char))
              && forallb plain_char (a :: m)
  end.

(** * Properties *)

(** ** Bytes and the XOR transform *)

Section byte_xor.

Lemma to_N_inj (x y : byte) : Byte.to_N x = Byte.to_N y -> x = y.
Proof.
  intros E. pose proof (Byte.of_to_N x) as Hx. rewrite E, Byte.of_to_N in Hx.
  congruence.
Qed.

Lemma lxor_byte_bound (m n : N) : (m <= 255 -> n <= 255 -> N.lxor m n <= 255)%N.
Proof.
  intros Hm Hn.
  destruct (N.eq_dec (N.lxor m n) 0%N) as [->|Hz]; [lia|].
  assert (N.lxor m n < 2 ^ 8)%N; [|lia].
  apply N.log2_lt_pow2; [lia|].
  eapply N.le_lt_trans; [apply N.log2_lxor|].
  assert (forall k, k <= 255 -> N.log2 k < 8)%N as Hlog.
  { intros k Hk. destruct (N.eq_dec k 0%N) as [->|]; [reflexivity|].
    apply N.log2_lt_pow2; lia. }
  apply N.max_lub_lt; auto.
Qed.

Lemma to_N_byte_xor (x y : byte) :
  Byte.to_N (byte_xor x y) = N.lxor (Byte.to_N x) (Byte.to_N y).
Proof.
  unfold byte_xor.
  pose proof (lxor_byte_bound _ _ (Byte.to_N_bounded x) (Byte.to_N_bounded y)) as Hb.
  pose proof (Byte.to_of_N_option_map (N.lxor (Byte.to_N x) (Byte.to_N y))) as Ho.
  apply N.leb_le in Hb. rewrite Hb in Ho.
  destruct (Byte.of_N _) as [c|]; simpl in Ho; congruence.
Qed.

Lemma byte_xor_cancel_r (x k : byte) : byte_xor (byte_xor x k) k = x.
Proof.
  apply to_N_inj. rewrite !to_N_byte_xor.
  by rewrite N.lxor_assoc, N.lxor_nilpotent, N.lxor_0_r.
Qed.

Lemma byte_xor_cancel_l (x e : byte) : byte_xor x (byte_xor x e) = e.
Proof.
  apply to_N_inj. rewrite !to_N_byte_xor.
  by rewrite <- N.lxor_assoc, N.lxor_nilpotent, N.lxor_0_l.
Qed.

End byte_xor.

Lemma xor_decrypt_length (data key : bytes) :
  length (_xor_decrypt data key) = length data.
Proof. unfold _xor_decrypt. case_bool_decide; [done|]. by rewrite length_imap. Qed.

Lemma xor_decrypt_lookup (data key : bytes) (i : nat) :
  key <> [] ->
  _xor_decrypt data key !! i
  = (fun c => byte_xor c (default x00 (key !! (i mod length key)%nat))) <$> data !! i.
Proof.
  intros Hk. unfold _xor_decrypt. rewrite bool_decide_eq_false_2 by done.
  by rewrite list_lookup_imap.
Qed.

Lemma xor_decrypt_twice (data key : bytes) :
  _xor_decrypt (_xor_decrypt data key) key = data.
Proof.
  destruct (decide (key = [])) as [->|Hk]; [done|].
  apply list_eq. intros i. rewrite !xor_decrypt_lookup by done.
  destruct (data !! i) as [c|]; simpl; [|done].
  by rewrite byte_xor_cancel_r.
Qed.

(** C10.  The XOR transform undoes itself: with any key, and so with every
    non-empty key, applying [_xor_decrypt] twice gives the buffer back; with
    the empty key one application already leaves the buffer as it is. *)
Theorem xor_decrypt_involution (data key : bytes) :
  _xor_decrypt (_xor_decrypt data key) key = data
  /\ _xor_decrypt data [] = data.
Proof. split; [apply xor_decrypt_twice | reflexivity]. Qed.

(** ** Header analysis *)

Lemma startswith_take {A} `{EqDecision A} (data prefix : list A) :
  startswith data prefix = true <-> take (length prefix) data = prefix.
Proof.
  revert data. induction prefix as [|p prefix IH]; intros data; simpl.
  - done.
  - destruct data as [|d data]; simpl; [done|].
    case_decide as Hd.
    + subst d. rewrite IH. split; [by intros -> | by intros [= ->]].
    + split; [done | intros [= ? _]; done].
Qed.

Lemma header_key_recovers (content expected : bytes) :
  length expected <= length content ->
  startswith
    (_xor_decrypt content (zip_with byte_xor (take (length expected) content) expected))
    expected = true.
Proof.
  intros Hlen. apply startswith_take.
  set (key := zip_with _ _ _).
  assert (length key = length expected) as Hkl.
  { unfold key. rewrite length_zip_with, length_take. lia. }
  destruct (decide (key = [])) as [Hk|Hk].
  { rewrite Hk in Hkl. destruct expected; [by rewrite take_0 | done]. }
  apply list_eq. intros i. rewrite lookup_take.
  case_decide as Hi; [|by rewrite lookup_ge_None_2 by lia].
  rewrite xor_decrypt_lookup by done.
  rewrite Hkl, Nat.mod_small by done.
  destruct (lookup_lt_is_Some_2 content i ltac:(lia)) as [c Hc].
  destruct (lookup_lt_is_Some_2 expected i Hi) as [e He].
  unfold key. rewrite lookup_zip_with, lookup_take, decide_True by done.
  rewrite Hc, He. simpl. by rewrite byte_xor_cancel_l.
Qed.

(** C9.  When the strategy names one of the six known file types and the
    buffer is at least as long as that type's magic bytes, the header
    analysis returns the buffer decrypted with the derived key, which starts
    with the magic, at confidence 0.8 with the key reported found; it draws
    no random number, so the simulated 0.6 result is not produced. *)
Theorem known_header_analysis_verified
    (content : bytes) (strat : Strategy) (g : rng) (ft : string) (expected : bytes) :
  strategy_file_type strat = Some ft ->
  ft ∈ ["zip"; "png"; "pdf"; "exe"; "jpeg"; "text"] ->
  known_headers !! ft = Some expected ->
  length expected <= length content ->
  exists decrypted det,
    _apply_known_header_analysis content strat g
    = (inr (Some decrypted, 8 # 10, true, det), g)
    /\ decrypted
       = _xor_decrypt content (zip_with byte_xor (take (length expected) content) expected)
    /\ startswith decrypted expected = true.
Proof.
  intros Hft _ Hknown Hlen. unfold _apply_known_header_analysis.
  rewrite Hft. simpl. rewrite Hknown.
  destruct (Nat.ltb_spec (length content) (length expected)) as [?|_]; [lia|].
  rewrite header_key_recovers by done.
  eexists _, _. split; [reflexivity|]. split; [done|]. by apply header_key_recovers.
Qed.

(** ** Grading of the outcome *)

Lemma Qltb_lt (x y : Q) : Qltb x y = true <-> (x < y)%Q.
Proof.
  unfold Qltb. rewrite negb_true_iff, <- not_true_iff_false, Qle_bool_iff.
  split; [apply Qnot_le_lt | apply Qlt_not_le].
Qed.

Lemma Qltb_ge (x y : Q) : Qltb x y = false <-> (y <= x)%Q.
Proof. unfold Qltb. by rewrite negb_false_iff, Qle_bool_iff. Qed.

Lemma truthy_present (x : option bytes) : truthy x = true <-> present_nonempty x.
Proof.
  unfold present_nonempty. destruct x as [[|c data]|]; simpl.
  - split; [done | by intros (? & [= <-] & ?)].
  - split; [eauto | done].
  - split; [done | by intros (? & [=] & _)].
Qed.

Lemma grade_level (self : DecryptionEngine) (clk : clock) (r : recovery) :
  let o := (grade self clk r).1 in
  decrypted_content o = r.1.1.1 /\ confidence o = r.1.1.2
  /\ success_level o
     = if truthy r.1.1.1 && Qltb (8 # 10) r.1.1.2 then "full"
       else if truthy r.1.1.1 && Qltb (3 # 10) r.1.1.2 then "partial"
       else "failed".
Proof.
  destruct r as [[[content conf] found] det]. unfold grade. simpl.
  destruct (truthy content); simpl; [|done].
  destruct (Qltb (8 # 10) conf); simpl; [done|].
  destruct (Qltb (3 # 10) conf); simpl; done.
Qed.

(** C1.  Whatever the buffer and the strategy, the outcome that
    [attempt_decryption] returns is graded by the two thresholds: it is
    [full] exactly when the confidence is above 0.8 and the recovered buffer
    is present and not empty, [partial] exactly when the confidence is above
    0.3 and at most 0.8 with such a buffer, and [failed] in every other
    case; so a confidence of exactly 0.3 is always [failed], and one of
    exactly 0.8 is never [full]. *)
Theorem success_level_thresholds
    (self : DecryptionEngine) (clk : clock) (fc : file_content) (strat : Strategy)
    (g : rng) :
  let o := (attempt_decryption self clk fc strat g).1.1 in
  (success_level o = "full"
   <-> (8 # 10 < confidence o)%Q /\ present_nonempty (decrypted_content o))
  /\ (success_level o = "partial"
      <-> (3 # 10 < confidence o)%Q /\ (confidence o <= 8 # 10)%Q
          /\ present_nonempty (decrypted_content o))
  /\ (success_level o = "failed"
      <-> ~ ((3 # 10 < confidence o)%Q /\ present_nonempty (decrypted_content o)))
  /\ ((confidence o == 3 # 10)%Q -> success_level o = "failed")
  /\ ((confidence o == 8 # 10)%Q -> success_level o <> "full").
Proof.
  intros o.
  assert (success_level o
          = if truthy (decrypted_content o) && Qltb (8 # 10) (confidence o) then "full"
            else if truthy (decrypted_content o) && Qltb (3 # 10) (confidence o)
                 then "partial" else "failed") as Hlevel.
  { subst o. unfold attempt_decryption.
    destruct (dispatch _ _ _) as [[e|r] g']; simpl; [done|].
    destruct (grade_level self clk r) as (-> & -> & ->). done. }
  rewrite Hlevel. clear Hlevel.
  rewrite <- !truthy_present.
  destruct (truthy (decrypted_content o)); simpl;
    [| repeat split; try done; intros; intuition congruence].
  destruct (Qltb (8 # 10) (confidence o)) eqn:H8;
    [apply Qltb_lt in H8 | apply Qltb_ge in H8];
    [| destruct (Qltb (3 # 10) (confidence o)) eqn:H3;
       [apply Qltb_lt in H3 | apply Qltb_ge in H3]];
    repeat split; try done; intros; intuition (try done; lra).
Qed.

(** ** The result cache *)

(** Steps through a computation in [M]: every [match] and [if] it meets is
    split and the equations that result are used. *)
Ltac step_M :=
  unfold mbind, lift, draw, mret in *; simpl in *;
  repeat (case_match; simplify_eq; simpl in * ).

Lemma lookup_details_absent (det : dict) (k k' : string) (v : pyval) :
  k' <> k -> det !! k = None -> <[k' := v]> det !! k = None.
Proof. intros Hne Hd. by rewrite lookup_insert_ne. Qed.

Ltac absent_key :=
  repeat (apply lookup_details_absent; [done|]); apply lookup_empty.

Lemma xor_bruteforce_details content strat g c q f det g' :
  _apply_xor_bruteforce content strat g = (inr (c, q, f, det), g') ->
  det !! "decryption_id" = None.
Proof. unfold _apply_xor_bruteforce. intros H. step_M; absent_key. Qed.

Lemma known_header_details content strat g c q f det g' :
  _apply_known_header_analysis content strat g = (inr (c, q, f, det), g') ->
  det !! "decryption_id" = None.
Proof.
  unfold _apply_known_header_analysis, simulated_header_analysis.
  intros H. step_M; absent_key.
Qed.

Lemma pattern_based_details content strat g c q f det g' :
  _apply_pattern_based_recovery content strat g = (inr (c, q, f, det), g') ->
  det !! "decryption_id" = None.
Proof. unfold _apply_pattern_based_recovery. intros H. step_M; absent_key. Qed.

Lemma partial_key_details content strat g c q f det g' :
  _apply_partial_key_recovery content strat g = (inr (c, q, f, det), g') ->
  det !! "decryption_id" = None.
Proof. unfold _apply_partial_key_recovery. intros H. step_M; absent_key. Qed.

Lemma generic_details content strat g c q f det g' :
  _apply_generic_recovery content strat g = (inr (c, q, f, det), g') ->
  det !! "decryption_id" = None.
Proof. unfold _apply_generic_recovery. intros H. step_M; absent_key. Qed.

Lemma dispatch_details content strat g c q f det g' :
  dispatch content strat g = (inr (c, q, f, det), g') ->
  det !! "decryption_id" = None.
Proof.
  unfold dispatch. repeat case_bool_decide;
    eauto using xor_bruteforce_details, known_header_details, pattern_based_details,
      partial_key_details, generic_details.
Qed.

Lemma failed_not_success : "failed" ∉ ["full"; "partial"].
Proof. rewrite !not_elem_of_cons. repeat split; [done | done | apply not_elem_of_nil]. Qed.

Lemma grade_cache (self : DecryptionEngine) (clk : clock) (r : recovery) :
  r.2 !! "decryption_id" = None ->
  let '(o, self') := grade self clk r in
  (success_level o ∈ ["full"; "partial"]
   /\ (exists id, attempt_id o = Some id
                  /\ decrypted_content o = decryption_cache self' !! id
                  /\ decryption_cache self'
                     = (<[id := default [] (decrypted_content o)]> (decryption_cache self)))
   /\ present_nonempty (decrypted_content o))
  \/ ((success_level o ∉ ["full"; "partial"]) /\ attempt_id o = None /\ self' = self).
Proof.
  destruct r as [[[content conf] found] det]. simpl. intros Hdet. unfold grade.
  destruct (truthy content) eqn:Ht; simpl.
  - assert (exists data, content = Some data) as [data ->].
    { destruct content; [eauto | done]. }
    destruct (Qltb (8 # 10) conf); simpl.
    { left. split; [set_solver|]. split; [|by apply truthy_present].
      eexists. unfold attempt_id. simpl. rewrite lookup_insert_eq.
      split; [done|]. by rewrite lookup_insert_eq. }
    destruct (Qltb (3 # 10) conf); simpl.
    { left. split; [set_solver|]. split; [|by apply truthy_present].
      eexists. unfold attempt_id. simpl. rewrite lookup_insert_eq.
      split; [done|]. by rewrite lookup_insert_eq. }
    right. unfold attempt_id. simpl. rewrite Hdet. split; [|done].
    apply failed_not_success.
  - right. unfold attempt_id. simpl. rewrite Hdet. split; [|done].
    apply failed_not_success.
Qed.

Lemma attempt_cache (self : DecryptionEngine) (clk : clock) (fc : file_content)
    (strat : Strategy) (g : rng) :
  let '(o, self', _) := attempt_decryption self clk fc strat g in
  (success_level o ∈ ["full"; "partial"]
   /\ (exists id, attempt_id o = Some id
                  /\ decrypted_content o = decryption_cache self' !! id
                  /\ decryption_cache self'
                     = (<[id := default [] (decrypted_content o)]> (decryption_cache self)))
   /\ present_nonempty (decrypted_content o))
  \/ ((success_level o ∉ ["full"; "partial"]) /\ attempt_id o = None /\ self' = self).
Proof.
  unfold attempt_decryption.
  destruct (dispatch _ _ _) as [[e|r] g'] eqn:Hd.
  - right. unfold attempt_id. simpl. rewrite lookup_insert_ne by done.
    rewrite lookup_empty. split; [|done].
    apply failed_not_success.
  - destruct r as [[[content conf] found] det].
    apply dispatch_details in Hd.
    by apply (grade_cache self clk (content, conf, found, det)).
Qed.

Lemma run_cache_other (calls : list call) (self : DecryptionEngine) (g : rng)
    (key : string) :
  let '(outs, self', _) := run self g calls in
  key ∉ omap attempt_id outs ->
  decryption_cache self' !! key = decryption_cache self !! key.
Proof.
  revert self g. induction calls as [|c calls IH]; intros self g; simpl; [done|].
  pose proof (attempt_cache self (call_clock c) (call_content c) (call_strategy c) g) as H1.
  destruct (attempt_decryption _ _ _ _ _) as [[o self1] g1].
  specialize (IH self1 g1). destruct (run self1 g1 calls) as [[os self2] g2].
  simpl. intros Hkey.
  destruct H1 as [(_ & (id & Hid & _ & Hc) & _) | (_ & Hid & ->)]; rewrite Hid in Hkey.
  - apply not_elem_of_cons in Hkey as [Hne Hkey].
    rewrite IH, Hc by done. by rewrite lookup_insert_ne.
  - by apply IH.
Qed.

(** C2.  After any call of [attempt_decryption], also one whose branch
    raised, the outcome carries an attempt identifier in its details under
    which the cache holds the recovered bytes exactly when the success level
    is [full] or [partial]; otherwise the cache is as it was.  On an engine
    that served any list of calls, looking up an identifier that none of
    them issued gives nothing. *)
Theorem cache_entry_iff_success :
  (forall self clk fc strat g,
     let '(o, self', _) := attempt_decryption self clk fc strat g in
     ((exists id, attempt_id o = Some id
                  /\ is_Some (decryption_cache self' !! id)
                  /\ decryption_cache self' !! id = decrypted_content o)
      <-> success_level o ∈ ["full"; "partial"])
     /\ (success_level o ∉ ["full"; "partial"] -> self' = self))
  /\ (forall calls g id,
        str_id id ∉ omap attempt_id (run new_engine g calls).1.1 ->
        get_decrypted_content (run new_engine g calls).1.2 id = None).
Proof.
  split.
  - intros self clk fc strat g.
    pose proof (attempt_cache self clk fc strat g) as H.
    destruct (attempt_decryption _ _ _ _ _) as [[o self'] g'].
    destruct H as [(Hin & (id & Hid & Hc & _) & (data & Hdata & _)) | (Hnin & Hid & ->)].
    + split; [|done]. split; [done|]. intros _. exists id.
      rewrite <- Hc, Hdata. eauto.
    + split; [|done]. split; [|done]. intros (id & Hid' & _). congruence.
  - intros calls g id.
    pose proof (run_cache_other calls new_engine g (str_id id)) as H.
    destruct (run new_engine g calls) as [[outs self'] g']. simpl.
    intros Hkey. unfold get_decrypted_content. by rewrite H.
Qed.

(** ** Attempt identifiers *)

(** C6 fails on the code.  Two successful calls on different buffers whose
    clock readings fall in the same second mint the same identifier: the
    second entry replaces the first, the cache holds one entry, and the
    first buffer can no longer be fetched. *)
Theorem attempt_ids_collide :
  let '(outs, self', _) := run new_engine example_rng [first_call; second_call] in
  exists o1 o2 id,
    outs = [o1; o2]
    /\ success_level o1 = "partial" /\ success_level o2 = "partial"
    /\ attempt_id o1 = Some id /\ attempt_id o2 = Some id
    /\ decrypted_content o1 <> decrypted_content o2
    /\ get_decrypted_content self' (IdStr id) = decrypted_content o2
    /\ size (decryption_cache self') = 1.
Proof.
  vm_compute. eexists _, _, _. repeat split; try reflexivity. discriminate.
Qed.

(** ** XOR brute force *)

Arguments _score_decryption_result : simpl never.
Arguments _create_simulated_decryption : simpl never.

Lemma score_bounds (data : option bytes) : (0 <= _score_decryption_result data <= 100)%Z.
Proof.
  unfold _score_decryption_result. destruct data as [data|]; [|lia].
  destruct (length data =? 0)%nat; [lia|].
  assert (0 <= signature_score data)%Z.
  { unfold signature_score. repeat case_match; lia. }
  assert (0 <= markup_score data)%Z.
  { unfold markup_score. repeat case_match; lia. }
  assert (0 <= text_score data)%Z.
  { unfold text_score. case_match; lia. }
  assert (0 <= entropy_score data)%Z.
  { unfold entropy_score. repeat case_match; lia. }
  lia.
Qed.

Lemma keeps_step (st : best) (top : Z) (seen : list bytes) (key c : bytes) :
  keeps st top seen ->
  keeps (if (best_score st <? _score_decryption_result (Some c))%Z
         then {| best_score := _score_decryption_result (Some c); best_key := Some key;
                 best_result := Some c |}
         else st)
        (Z.max top (_score_decryption_result (Some c))) (seen ++ [c]).
Proof.
  intros [Hs Hr]. destruct (Z.ltb_spec (best_score st) (_score_decryption_result (Some c))).
  - split; simpl; [lia|]. intros _. exists c. split; [done|]. split; [set_solver | lia].
  - split; [lia|]. intros Htop.
    destruct Hr as (c' & ? & ? & ?); [lia|]. exists c'. split; [done|].
    split; [set_solver | lia].
Qed.

Lemma xor_attempts_keeps content key_size attempts st g top seen :
  keeps st top seen ->
  let '(cands, g1) := attempts_candidates content key_size attempts g in
  exists st', xor_attempts content key_size attempts st g = (st', g1)
              /\ keeps st' (foldl (fun top c => Z.max top (_score_decryption_result (Some c)))
                                  top cands) (seen ++ cands).
Proof.
  revert st g top seen. induction attempts as [|a attempts IH]; intros st g top seen Hk; simpl.
  - exists st. by rewrite app_nil_r.
  - unfold xor_attempt. destruct (random_key _ g) as [key g1].
    specialize (IH
      (if (best_score st <? _score_decryption_result (Some (_xor_decrypt content key)))%Z
       then {| best_score := _score_decryption_result (Some (_xor_decrypt content key));
               best_key := Some key; best_result := Some (_xor_decrypt content key) |}
       else st) g1 _ _ (keeps_step st top seen key _ Hk)).
    destruct (attempts_candidates content key_size attempts g1) as [cands g2].
    destruct IH as (st' & Hrun & Hkeeps). exists st'. simpl.
    rewrite <- app_assoc in Hkeeps. split; [|done].
    by destruct (best_score st <? _)%Z.
Qed.

Lemma xor_search_keeps content key_sizes st g top seen :
  keeps st top seen ->
  let '(cands, g1) := xor_candidates content key_sizes g in
  exists st', xor_search content key_sizes st g = (st', g1)
              /\ keeps st' (foldl (fun top c => Z.max top (_score_decryption_result (Some c)))
                                  top cands) (seen ++ cands).
Proof.
  revert st g top seen.
  induction key_sizes as [|k key_sizes IH]; intros st g top seen Hk;
    cbn [xor_search xor_candidates].
  - exists st. by rewrite app_nil_r.
  - pose proof (xor_attempts_keeps content k (range2 0 10) st g top seen Hk) as H1.
    destruct (attempts_candidates content k (range2 0 10) g) as [cands g1].
    destruct H1 as (st1 & -> & Hk1).
    specialize (IH st1 g1 _ _ Hk1).
    destruct (xor_candidates content key_sizes g1) as [more g2].
    destruct IH as (st2 & Hrun & Hk2). exists st2. split; [done|].
    by rewrite foldl_app, app_assoc.
Qed.

Lemma score_confidence_low (z : Z) :
  Qltb (score_confidence z) (4 # 10) = (z <? 40)%Z.
Proof.
  unfold score_confidence, min2, Qltb, Qle_bool.
  destruct (Z.ltb_spec 0 z); simpl.
  - destruct (Z.leb_spec (z * 1) (1 * 100)); simpl;
      destruct (Z.ltb_spec z 40); try destruct (Z.leb_spec (4 * 100) (z * 10));
      simpl; try done; lia.
  - destruct (Z.ltb_spec z 40); [done | lia].
Qed.

(** C5 as stated fails on the code: on the empty buffer every candidate
    scores 0, so the claimed confidence is min(0/100, 1) = 0, and the branch
    returns 0.75. *)
Lemma xor_confidence_not_best_score :
  let top := highest_score (xor_candidates [] (range2 1 (8 + 1)) example_rng).1 in
  exists dc conf found det g',
    _apply_xor_bruteforce [] xor_strategy example_rng = (inr (dc, conf, found, det), g')
    /\ top = 0%Z
    /\ ~ (conf == min2 (top # 100) 1)%Q.
Proof.
  vm_compute. eexists _, _, _, _, _. split; [reflexivity|]. split; [reflexivity|].
  discriminate.
Qed.

(** C5, amended.  Let [top] be the highest score among the candidates the
    brute force tries ([-1] if it tries none).  When [top] is at least 40 the
    branch returns a candidate that scores [top], with confidence
    min(top/100, 1).  When [top] is below 40 it returns the simulated content
    with confidence 0.75 and the key reported found.  In both cases the key
    is reported found exactly when the confidence is above 0.5. *)
Theorem xor_bruteforce_confidence
    (content : bytes) (strat : Strategy) (g : rng) (lo hi : Z) :
  default [1; 4]%Z (strategy_key_size_range strat) !! 0%nat = Some lo ->
  default [1; 4]%Z (strategy_key_size_range strat) !! 1%nat = Some hi ->
  let '(candidates, g1) := xor_candidates content (range2 lo (hi + 1)) g in
  let top := highest_score candidates in
  exists dc conf found det g',
    _apply_xor_bruteforce content strat g = (inr (dc, conf, found, det), g')
    /\ (found = true <-> (5 # 10 < conf)%Q)
    /\ ((40 <= top)%Z ->
        conf = min2 (top # 100) 1 /\ g' = g1
        /\ exists c, dc = Some c /\ c ∈ candidates
                     /\ _score_decryption_result (Some c) = top)
    /\ ((top < 40)%Z ->
        conf = 75 # 100 /\ found = true
        /\ dc = Some (_create_simulated_decryption content false g1).1).
Proof.
  intros Hlo Hhi.
  assert (keeps no_best (-1) []) as Hk0 by (split; [done | simpl; lia]).
  pose proof (xor_search_keeps content (range2 lo (hi + 1)) no_best g (-1) [] Hk0) as Hs.
  destruct (xor_candidates content (range2 lo (hi + 1)) g) as [candidates g1].
  destruct Hs as (st & Hrun & Hbest & Hres). simpl in Hres.
  fold (highest_score candidates) in Hbest, Hres.
  unfold _apply_xor_bruteforce, mbind, lift, draw, mret, index.
  rewrite Hlo, Hhi. simpl. rewrite Hrun.
  rewrite score_confidence_low, Hbest.
  destruct (Z.ltb_spec (highest_score candidates) 40) as [Hlow|Hhigh].
  - destruct (_create_simulated_decryption content false g1) as [sim g2] eqn:Hsim.
    eexists _, _, _, _, _. split; [reflexivity|].
    split; [split; [reflexivity | done]|]. split; [lia|]. done.
  - eexists _, _, _, _, _. split; [reflexivity|].
    split; [apply Qltb_lt|]. split; [|lia]. intros _.
    split. { unfold score_confidence. by rewrite (proj2 (Z.ltb_lt 0 _)) by lia. }
    split; [done|]. apply Hres. lia.
Qed.

(** The brute force on the buffer [hello] with the key sizes 1 to 8. *)
Lemma xor_bruteforce_confidence_witness :
  let '(candidates, g1) := xor_candidates (b "hello") (range2 1 (8 + 1)) example_rng in
  let top := highest_score candidates in
  exists dc conf found det g',
    _apply_xor_bruteforce (b "hello") xor_strategy example_rng
    = (inr (dc, conf, found, det), g')
    /\ (found = true <-> (5 # 10 < conf)%Q)
    /\ ((40 <= top)%Z ->
        conf = min2 (top # 100) 1 /\ g' = g1
        /\ exists c, dc = Some c /\ c ∈ candidates
                     /\ _score_decryption_result (Some c) = top)
    /\ ((top < 40)%Z ->
        conf = 75 # 100 /\ found = true
        /\ dc = Some (_create_simulated_decryption (b "hello") false g1).1).
Proof.
  apply (xor_bruteforce_confidence (b "hello") xor_strategy example_rng 1 8); reflexivity.
Defined.

(** ** Classifier *)

Lemma uniform_flag (bd : option ByteDistribution) :
  from_option is_uniform false bd = true <-> uniform bd.
Proof.
  unfold uniform. destruct bd as [d|]; simpl.
  - split; [eauto | by intros (? & [= <-] & ?)].
  - split; [done | by intros (? & [=] & _)].
Qed.

Lemma determine_classifies e bd ha pa :
  classifies e bd ha pa (_determine_encryption_type e bd ha pa).
Proof.
  unfold _determine_encryption_type.
  destruct (Rgt_dec e (78 / 10)).
  { destruct (has_repeating_blocks pa) eqn:?; [by constructor|].
    destruct (from_option is_uniform false bd) eqn:Hu.
    - apply band_strong_uniform; [done..|]. by apply uniform_flag.
    - apply band_strong_unknown; [done..|]. rewrite <- uniform_flag. congruence. }
  destruct (Rgt_dec e 7).
  { destruct (possible_xor pa) eqn:?; constructor; (done || lra). }
  destruct (Rgt_dec e 6).
  { case_bool_decide; simpl; constructor; (done || lra). }
  destruct (has_ransomware_markers pa) eqn:?; constructor; (done || lra).
Qed.

Lemma classifies_functional e bd ha pa l1 l2 :
  classifies e bd ha pa l1 -> classifies e bd ha pa l2 -> l1 = l2.
Proof.
  intros H1 H2.
  destruct H1; destruct H2; try reflexivity; try congruence; try lra; try tauto.
Qed.

Lemma header_identified (data : bytes) :
  identified (_analyze_file_header data) = true
  <-> file_type (_analyze_file_header data) <> "unknown".
Proof.
  unfold _analyze_file_header. repeat case_match; simpl; split; done.
Qed.

(** C3.  The classifier is a function of the profile alone and follows the
    table of entropy bands row by row: a label is the one the table gives
    for a profile exactly when it is the label [_determine_encryption_type]
    returns, so no profile has two labels.  (The table reads "the header
    identified a known file type" as a file type other than [unknown]; for
    header analyses the profiler builds this is the same as the [identified]
    flag.) *)
Theorem determine_encryption_type_table :
  (forall e bd ha pa label,
     classifies e bd ha pa label <-> _determine_encryption_type e bd ha pa = label)
  /\ (forall data,
        identified (_analyze_file_header data) = true
        <-> file_type (_analyze_file_header data) <> "unknown").
Proof.
  split; [|apply header_identified].
  intros e bd ha pa label. split.
  - intros H. eapply classifies_functional; [apply determine_classifies | done].
  - intros <-. apply determine_classifies.
Qed.

(** ** Plausibility scorer *)

Lemma startswith_prefix {A} `{EqDecision A} (data p : list A) :
  startswith data p = true <-> p `prefix_of` data.
Proof.
  rewrite startswith_take. split.
  - intros <-. apply prefix_take.
  - intros [k ->]. by rewrite take_app_length.
Qed.

Lemma startswith_head {A} `{EqDecision A} (data p : list A) :
  startswith data p = true -> p <> [] -> head data = head p.
Proof.
  destruct p as [|x p]; [done|]. destruct data as [|d data]; simpl; [done|].
  case_decide; [by subst | done].
Qed.

(** The five signatures begin with five different bytes, so a buffer starts
    with at most one of them. *)
Ltac clash_heads :=
  match goal with
  | H1 : startswith ?d ?p = true, H2 : startswith ?d ?q = true |- _ =>
      apply startswith_head in H1; [|done]; apply startswith_head in H2; [|done];
      rewrite H1 in H2; discriminate H2
  end.

Lemma signature_score_spec (data : bytes) :
  (signature_score data = 50%Z
   <-> PK34 `prefix_of` data \/ PNG_MAGIC `prefix_of` data
       \/ b "%PDF" `prefix_of` data \/ JPEG_MAGIC `prefix_of` data)
  /\ (signature_score data = 40%Z <-> b "MZ" `prefix_of` data)
  /\ (signature_score data = 0%Z \/ signature_score data = 40%Z
      \/ signature_score data = 50%Z).
Proof.
  rewrite <- !startswith_prefix. unfold signature_score.
  destruct (startswith data PK34) eqn:Hzip;
    destruct (startswith data PNG_MAGIC) eqn:Hpng;
    destruct (startswith data (b "%PDF")) eqn:Hpdf;
    destruct (startswith data (b "MZ")) eqn:Hexe;
    destruct (startswith data JPEG_MAGIC) eqn:Hjpeg;
    try clash_heads;
    (split; [|split]); try (split; intros; intuition (done || lia)); auto.
Qed.

Lemma endswith_suffix {A} `{EqDecision A} (data s : list A) :
  endswith data s = true <-> s `suffix_of` data.
Proof.
  unfold endswith. rewrite startswith_prefix. symmetry. apply suffix_prefix_reverse.
Qed.

(** When the markup bonus is 20 and when it is 15: an opening brace and a
    markup opening begin with different characters, so the tests of the code
    exclude each other. *)
Lemma markup_score_spec (data : bytes) :
  let text_sample := decode_utf8_ignore (sample data) in
  (markup_score data = 20%Z
   <-> u "<!DOCTYPE" `prefix_of` text_sample \/ u "<html" `prefix_of` text_sample
       \/ u "<?xml" `prefix_of` text_sample)
  /\ (markup_score data = 15%Z
      <-> u "{" `prefix_of` text_sample /\ u "}" `suffix_of` strip text_sample)
  /\ (markup_score data = 0%Z \/ markup_score data = 15%Z \/ markup_score data = 20%Z).
Proof.
  cbv zeta. rewrite <- !startswith_prefix, <- endswith_suffix.
  unfold markup_score, sample.
  set (text_sample := decode_utf8_ignore (take (Nat.min 1000 (length data)) data)).
  destruct (startswith text_sample (u "<!DOCTYPE")) eqn:Hdoc;
    destruct (startswith text_sample (u "<html")) eqn:Hhtml;
    destruct (startswith text_sample (u "<?xml")) eqn:Hxml;
    destruct (startswith text_sample (u "{")) eqn:Hbrace;
    try clash_heads;
    destruct (endswith (strip text_sample) (u "}")); cbn [orb andb];
    (split; [|split]); try (split; intros; intuition (done || lia)); auto.
Qed.

Lemma markup_score_values (data : bytes) :
  markup_score data = 0%Z \/ markup_score data = 15%Z \/ markup_score data = 20%Z.
Proof. unfold markup_score. repeat case_match; auto. Qed.

Lemma printable_ratio_above (data : bytes) :
  data <> [] ->
  (9 # 10 < printable_ratio data)%Q
  <-> 9 * Nat.min 1000 (length data) < 10 * printable_count data.
Proof.
  intros Hne. unfold printable_ratio, printable_count, Qlt. cbn [Qnum Qden].
  assert (0 < Nat.min 1000 (length data)) as Hpos.
  { destruct data; [done | cbn [length]; lia]. }
  set (n := Nat.min 1000 (length data)) in *.
  assert (Z.pos (Pos.of_nat n) = Z.of_nat n) as ->.
  { rewrite <- (positive_nat_Z (Pos.of_nat n)), Nat2Pos.id; lia. }
  lia.
Qed.

(** C7 as stated fails on the code at exactly 90%: of these ten bytes nine
    are printable, and the score stays below the 40 points the text bonus
    alone would give. *)
Lemma score_at_ninety_percent :
  let data := b "aaaaaaaaa" ++ [x00] in
  (9 # 10 <= printable_ratio data)%Q
  /\ ~ (40 <= _score_decryption_result (Some data))%Z.
Proof.
  intros data. split; [by vm_compute|].
  unfold _score_decryption_result.
  change (length data =? 0)%nat with false. cbv iota.
  change (signature_score data) with 0%Z.
  change (text_score data) with 0%Z.
  assert (entropy_score data <= 20)%Z; [|lia].
  unfold entropy_score. repeat case_match; lia.
Qed.

(** C7, amended.  The score is an integer between 0 and 100; it is 0 for an
    absent or empty buffer; for any other buffer it is the sum of three
    bonuses, capped at 100: 50 for a ZIP, PNG, PDF or JPEG signature and 40
    for a PE signature; 40 when more than 90% of the sample is printable or
    whitespace, with 20 more when the decoded sample starts like HTML or
    XML ([<!DOCTYPE], [<html] or [<?xml]) and 15 more when it looks like a
    JSON object (it starts with an opening brace and, stripped of white
    space, ends with a closing one); 20 for a sample entropy below 6 and 10
    for one from 6 up to, not including, 7. *)
Theorem plausibility_score_additive (data : bytes) :
  (0 <= _score_decryption_result (Some data) <= 100)%Z
  /\ _score_decryption_result None = 0%Z
  /\ _score_decryption_result (Some []) = 0%Z
  /\ (forall c rest, data = c :: rest ->
        _score_decryption_result (Some data)
        = Z.min (signature_score data + text_score data + entropy_score data) 100
        /\ ((9 # 10 < printable_ratio data)%Q
            <-> 9 * Nat.min 1000 (length data) < 10 * printable_count data))
  /\ ((signature_score data = 50%Z
       <-> PK34 `prefix_of` data \/ PNG_MAGIC `prefix_of` data
           \/ b "%PDF" `prefix_of` data \/ JPEG_MAGIC `prefix_of` data)
      /\ (signature_score data = 40%Z <-> b "MZ" `prefix_of` data)
      /\ (signature_score data = 0%Z \/ signature_score data = 40%Z
          \/ signature_score data = 50%Z))
  /\ ((text_score data = 40 + markup_score data)%Z <-> (9 # 10 < printable_ratio data)%Q)
  /\ (text_score data = 0%Z <-> ~ (9 # 10 < printable_ratio data)%Q)
  /\ (let text_sample := decode_utf8_ignore (sample data) in
      (markup_score data = 20%Z
       <-> u "<!DOCTYPE" `prefix_of` text_sample \/ u "<html" `prefix_of` text_sample
           \/ u "<?xml" `prefix_of` text_sample)
      /\ (markup_score data = 15%Z
          <-> u "{" `prefix_of` text_sample /\ u "}" `suffix_of` strip text_sample)
      /\ (markup_score data = 0%Z \/ markup_score data = 15%Z
          \/ markup_score data = 20%Z))
  /\ (entropy_score data = 20%Z <-> (_calculate_entropy (sample data) < 6)%R)
  /\ (entropy_score data = 10%Z
      <-> (6 <= _calculate_entropy (sample data) < 7)%R)
  /\ (entropy_score data = 0%Z <-> (7 <= _calculate_entropy (sample data))%R).
Proof.
  split; [apply score_bounds|]. split; [done|]. split; [done|].
  split.
  { intros c rest ->. split; [done|]. by apply printable_ratio_above. }
  split; [apply signature_score_spec|].
  pose proof (markup_score_values data) as Hm.
  pose proof (markup_score_spec data) as Hspec.
  assert (Qltb (9 # 10) (printable_ratio data) = true
          <-> (9 # 10 < printable_ratio data)%Q) as Hq by apply Qltb_lt.
  unfold text_score, entropy_score.
  destruct (Qltb (9 # 10) (printable_ratio data)).
  - split; [tauto|]. split; [split; [lia | intros []; tauto]|]. split; [exact Hspec|].
    unfold sample.
    repeat case_match; repeat split; intros; try done; try lra; try lia.
  - split; [split; [lia | intros ?%Hq; done]|].
    split; [split; [intros _ ?%Hq; done | done]|]. split; [exact Hspec|].
    unfold sample.
    repeat case_match; repeat split; intros; try done; try lra; try lia.
Qed.

(** ** Entropy *)

Lemma byte_index_bound (c : byte) : N.to_nat (Byte.to_N c) < 256.
Proof. pose proof (Byte.to_N_bounded c). lia. Qed.

Lemma sum_list_alter_S (l : list nat) (j : nat) :
  j < length l -> sum_list (alter S j l) = S (sum_list l).
Proof.
  revert j. induction l as [|x l IH]; intros [|j] Hj; simpl in *; try lia.
  specialize (IH j ltac:(lia)). unfold alter in IH. lia.
Qed.

Lemma count_step_length (counts : list nat) (data : bytes) :
  length (foldl (fun counts byte => alter S (N.to_nat (Byte.to_N byte)) counts) counts data)
  = length counts.
Proof.
  revert counts. induction data as [|c data IH]; intros counts; simpl; [done|].
  by rewrite IH, length_alter.
Qed.

Lemma count_step_sum (counts : list nat) (data : bytes) :
  256 <= length counts ->
  sum_list (foldl (fun counts byte => alter S (N.to_nat (Byte.to_N byte)) counts) counts data)
  = sum_list counts + length data.
Proof.
  revert counts. induction data as [|c data IH]; intros counts Hlen; simpl; [lia|].
  rewrite IH by (by rewrite length_alter).
  rewrite sum_list_alter_S; [lia|]. pose proof (byte_index_bound c). lia.
Qed.

Lemma byte_counts_length (data : bytes) : length (byte_counts data) = 256.
Proof. unfold byte_counts. by rewrite count_step_length, length_replicate. Qed.

Lemma byte_counts_sum (data : bytes) : sum_list (byte_counts data) = length data.
Proof.
  unfold byte_counts. rewrite count_step_sum by (by rewrite length_replicate).
  by rewrite sum_list_replicate.
Qed.

Lemma sum_list_elem_le (l : list nat) (x : nat) : x ∈ l -> x <= sum_list l.
Proof.
  induction 1 as [|x y l _ IH]; simpl; lia.
Qed.

Section entropy_bounds.

Local Open Scope R_scope.

Lemma entropy_fold (ps : list R) (a : R) :
  foldl (fun entropy p => if Rgt_dec p 0 then entropy - p * log2 p else entropy) a ps
  = a - np_sum (map plogp ps).
Proof.
  revert a. induction ps as [|p ps IH]; intros a; simpl; [lra|].
  rewrite IH. unfold plogp. destruct (Rgt_dec p 0); lra.
Qed.

Lemma ln_le_pred (x : R) : 0 < x -> ln x <= x - 1.
Proof.
  intros Hx. pose proof (exp_ineq1_le (ln x)) as H. rewrite exp_ln in H by done. lra.
Qed.

Lemma ln2_pos : 0 < ln 2.
Proof. pose proof ln_lt_2. lra. Qed.

Lemma ln_256 : ln 256 = 8 * ln 2.
Proof.
  replace 256 with (2 ^ 8) by lra. rewrite ln_pow by lra. simpl. lra.
Qed.

Lemma plogp_nonpos (p : R) : 0 <= p <= 1 -> plogp p <= 0.
Proof.
  intros [H0 H1]. unfold plogp, log2. destruct (Rgt_dec p 0) as [Hp|]; [|lra].
  pose proof (ln_le_pred p Hp) as Hln. pose proof ln2_pos as HL.
  assert (ln p / ln 2 <= 0).
  { apply Rmult_le_reg_r with (ln 2); [done|]. unfold Rdiv.
    rewrite Rmult_assoc, Rinv_l by lra. lra. }
  nra.
Qed.

Lemma plogp_bound (p : R) :
  0 <= p -> - plogp p <= 8 * p + (1 / 256 - p) / ln 2.
Proof.
  intros H0. pose proof ln2_pos as HL. unfold plogp, log2.
  destruct (Rgt_dec p 0) as [Hp|Hp].
  - assert (0 < / (256 * p)) as Hinv by (apply Rinv_0_lt_compat; lra).
    pose proof (ln_le_pred _ Hinv) as Hln.
    rewrite ln_Rinv, ln_mult, ln_256 in Hln by lra.
    assert (p * (/ (256 * p) - 1) = 1 / 256 - p) as Hfield by (field; lra).
    assert (- (8 * ln 2 + ln p) * p <= 1 / 256 - p) as Hmain by nra.
    apply Rmult_le_reg_r with (ln 2); [done|].
    replace ((8 * p + (1 / 256 - p) / ln 2) * ln 2)
      with (8 * p * ln 2 + (1 / 256 - p)) by (field; lra).
    replace (- (p * (ln p / ln 2)) * ln 2) with (- (p * ln p)) by (field; lra).
    lra.
  - assert (p = 0) as -> by lra.
    assert (0 <= (1 / 256 - 0) / ln 2); [|lra].
    apply Rmult_le_pos; [lra|]. apply Rlt_le, Rinv_0_lt_compat. done.
Qed.

Lemma np_sum_le (f g : R -> R) (ps : list R) :
  (forall p, p ∈ ps -> f p <= g p) ->
  np_sum (map f ps) <= np_sum (map g ps).
Proof.
  induction ps as [|p ps IH]; intros H; simpl; [lra|].
  pose proof (H p ltac:(left)).
  assert (np_sum (map f ps) <= np_sum (map g ps)) as IH'.
  { apply IH. intros q Hq. apply H. by right. }
  fold (np_sum (map f ps)). fold (np_sum (map g ps)). lra.
Qed.

Lemma np_sum_affine (a c : R) (ps : list R) :
  np_sum (map (fun p => a * p + c) ps) = a * np_sum ps + INR (length ps) * c.
Proof.
  induction ps as [|p ps IH]; [simpl; lra|].
  cbn [map np_sum foldr length] in *. fold (np_sum (map (fun p => a * p + c) ps)).
  fold (np_sum ps). rewrite IH, S_INR. lra.
Qed.

Lemma np_sum_frequencies (counts : list nat) (n : nat) :
  np_sum (map (fun c : nat => INR c / INR n) counts) = INR (sum_list counts) / INR n.
Proof.
  induction counts as [|c counts IH]; simpl.
  - unfold Rdiv. lra.
  - fold (np_sum (map (fun c : nat => INR c / INR n) counts)).
    rewrite IH, plus_INR. unfold Rdiv. lra.
Qed.

Lemma frequencies_sum (data : bytes) :
  data <> [] -> np_sum (frequencies_of data) = 1.
Proof.
  intros Hne. unfold frequencies_of. rewrite np_sum_frequencies, byte_counts_sum.
  apply Rinv_r. apply not_0_INR. by destruct data.
Qed.

Lemma frequencies_range (data : bytes) (p : R) :
  data <> [] -> p ∈ frequencies_of data -> 0 <= p <= 1.
Proof.
  intros Hne Hp. unfold frequencies_of in Hp.
  apply list_elem_of_fmap in Hp as (c & -> & Hc).
  apply sum_list_elem_le in Hc. rewrite byte_counts_sum in Hc.
  assert (0 < INR (length data)) as Hn.
  { apply lt_0_INR. destruct data; [done | simpl; lia]. }
  pose proof (pos_INR c) as Hc0. apply le_INR in Hc.
  split.
  - apply Rmult_le_pos; [done|]. by apply Rlt_le, Rinv_0_lt_compat.
  - apply Rmult_le_reg_r with (INR (length data)); [done|].
    unfold Rdiv. rewrite Rmult_assoc, Rinv_l by lra. lra.
Qed.

Lemma entropy_range (data : bytes) : 0 <= _calculate_entropy data <= 8.
Proof.
  unfold _calculate_entropy. case_bool_decide as Hne; [lra|].
  rewrite entropy_fold. pose proof ln2_pos as HL.
  split.
  - assert (np_sum (map plogp (frequencies_of data))
            <= np_sum (map (fun _ => 0) (frequencies_of data))) as H.
    { apply np_sum_le. intros p Hp. apply plogp_nonpos. by eapply frequencies_range. }
    assert (np_sum (map (fun _ : R => 0) (frequencies_of data)) = 0) as H0.
    { clear. induction (frequencies_of data) as [|? ? IH]; simpl; [done|].
      fold (np_sum (map (fun _ : R => 0) l)). rewrite IH. lra. }
    lra.
  - assert (np_sum (map (fun p => - plogp p) (frequencies_of data))
            <= np_sum (map (fun p => (8 - / ln 2) * p + 1 / 256 / ln 2)
                           (frequencies_of data))) as H.
    { apply np_sum_le. intros p Hp.
      pose proof (plogp_bound p (proj1 (frequencies_range data p Hne Hp))) as Hb.
      replace ((8 - / ln 2) * p + 1 / 256 / ln 2)
        with (8 * p + (1 / 256 - p) / ln 2) by (field; lra).
      done. }
    rewrite np_sum_affine, frequencies_sum in H by done.
    assert (length (frequencies_of data) = 256%nat) as Hlen.
    { unfold frequencies_of. by rewrite length_map, byte_counts_length. }
    rewrite Hlen in H.
    assert (INR 256 = 256) as H256 by (rewrite INR_IZR_INZ; reflexivity).
    rewrite H256 in H.
    assert (np_sum (map (fun p => - plogp p) (frequencies_of data))
            = - np_sum (map plogp (frequencies_of data))) as Hneg.
    { clear. induction (frequencies_of data) as [|? ? IH]; simpl; [lra|].
      fold (np_sum (map (fun p => - plogp p) l)). fold (np_sum (map plogp l)).
      rewrite IH. lra. }
    rewrite Hneg in H.
    assert ((8 - / ln 2) * 1 + 256 * (1 / 256 / ln 2) = 8) as Heq by (field; lra).
    lra.
Qed.

End entropy_bounds.

(** ** Totality of the entry points *)

Lemma omap_length_total {A B} (f : A -> option B) (l : list A) :
  (forall x, x ∈ l -> is_Some (f x)) -> length (omap f l) = length l.
Proof.
  induction l as [|x l IH]; intros H; simpl; [done|].
  destruct (H x ltac:(left)) as [y ->]. simpl. f_equal. apply IH.
  intros z Hz. apply H. by right.
Qed.

Lemma analyze_byte_distribution_returns (data : bytes) :
  exists bd, _analyze_byte_distribution data = inr bd.
Proof.
  unfold _analyze_byte_distribution.
  destruct (Nat.eqb_spec (length data) 0) as [|Hlen]; [by eexists|].
  assert (data <> []) as Hne by (by intros ->).
  assert (length (frequencies_of data) = 256) as Hfl.
  { unfold frequencies_of. by rewrite length_map, byte_counts_length. }
  pose proof (frequencies_sum data Hne) as Hsum.
  destruct (frequencies_of data) as [|x xs] eqn:Hx; [done|].
  unfold np_max, bind, ret.
  destruct (nonzero (x :: xs)) as [|q qs] eqn:Hnz.
  { exfalso.
    assert (np_sum (x :: xs) = 0%R); [|lra].
    unfold nonzero in Hnz.
    assert (Forall (fun p => p = 0%R) (x :: xs)) as Hall.
    { apply Forall_forall. intros p Hp. destruct (decide (p = 0%R)) as [|Hp0]; [done|].
      by destruct (filter_nil_not_elem_of _ _ p Hnz Hp0). }
    clear -Hall. induction Hall as [|p ps -> _ IH]; simpl; [done|].
    fold (np_sum ps). rewrite IH. lra. }
  simpl. unfold index.
  destruct (byte_counts data !! 0) as [c0|] eqn:H0; simpl; [by eexists|].
  apply lookup_ge_None in H0. rewrite byte_counts_length in H0. lia.
Qed.

Lemma has_repeating_blocks_returns (data : bytes) :
  exists r, _has_repeating_blocks data 16 = inr r.
Proof.
  unfold _has_repeating_blocks, range3.
  destruct (_ <? _)%Z; [by eexists|]. simpl. by eexists.
Qed.

Lemma check_xor_pattern_returns (data : bytes) :
  exists r, _check_xor_pattern data = inr r.
Proof.
  unfold _check_xor_pattern.
  destruct (Nat.ltb_spec (length data) 100) as [|Hlen]; [by eexists|].
  set (samples := omap _ (range_step 0 _ 10)).
  set (xor_values := omap _ (range2 0 _)).
  assert (10 <= length samples) as Hs.
  { unfold samples. rewrite omap_length_total.
    - unfold range_step. rewrite length_map, length_seq.
      change (0 <? 10)%Z with true. cbv iota.
      Z.div_mod_to_equations. lia.
    - intros i Hi. unfold range_step in Hi.
      change (0 <? 10)%Z with true in Hi. cbv iota in Hi.
      apply list_elem_of_fmap in Hi as (k & -> & Hk). apply elem_of_seq in Hk.
      assert (is_Some (data !! Z.to_nat (0 + Z.of_nat k * 10))) as [c ->]; [|by eexists].
      apply lookup_lt_is_Some_2. Z.div_mod_to_equations. lia. }
  assert (length xor_values = length samples - 1) as Hx.
  { unfold xor_values. rewrite omap_length_total.
    - unfold range2. rewrite length_map, length_seq. lia.
    - intros i Hi. unfold range2 in Hi.
      apply list_elem_of_fmap in Hi as (k & -> & Hk). apply elem_of_seq in Hk.
      destruct (lookup_lt_is_Some_2 samples (Z.to_nat (0 + Z.of_nat k)) ltac:(lia))
        as [x ->].
      destruct (lookup_lt_is_Some_2 samples (Z.to_nat (0 + Z.of_nat k + 1)) ltac:(lia))
        as [y ->].
      by eexists. }
  destruct (Nat.eqb_spec (length xor_values) 0) as [H0|_]; [lia|]. by eexists.
Qed.

Lemma detect_encryption_patterns_returns (data : bytes) :
  exists pa, _detect_encryption_patterns data = inr pa.
Proof.
  unfold _detect_encryption_patterns.
  destruct (has_repeating_blocks_returns data) as [rb ->].
  destruct (check_xor_pattern_returns data) as [px ->]. simpl. by eexists.
Qed.

Lemma analyze_encryption_returns (clk : clock) (fc : file_content) :
  exists a, analyze_encryption clk fc = inr a.
Proof.
  unfold analyze_encryption.
  destruct (analyze_byte_distribution_returns (content_of fc)) as [bd ->].
  destruct (detect_encryption_patterns_returns (content_of fc)) as [pa ->].
  simpl. by eexists.
Qed.

(** C4.  For every byte buffer [analyze_encryption] returns an analysis: no
    step of its body raises.  [attempt_decryption] returns an outcome for
    every buffer and strategy, and when the strategy branch raises an
    exception the outcome is [failed] with confidence 0, no recovered bytes,
    the text of the exception under [error] in the details, and the cache
    untouched. *)
Theorem analyze_and_recover_total :
  (forall clk fc, exists a, analyze_encryption clk fc = inr a)
  /\ (forall self clk fc strat g,
        exists o self' g', attempt_decryption self clk fc strat g = (o, self', g'))
  /\ (forall self clk fc strat g e,
        (dispatch (content_of fc) strat g).1 = inl e ->
        let '(o, self', _) := attempt_decryption self clk fc strat g in
        success_level o = "failed" /\ confidence o = 0%Q
        /\ decrypted_content o = None /\ key_found o = false
        /\ details o !! "error" = Some (PStr (exn_str e))
        /\ self' = self).
Proof.
  split; [apply analyze_encryption_returns|]. split.
  - intros self clk fc strat g.
    destruct (attempt_decryption self clk fc strat g) as [[o self'] g']. by eexists _, _, _.
  - intros self clk fc strat g e He. unfold attempt_decryption.
    destruct (dispatch _ _ _) as [[e'|r] g']; simpl in He; [|done].
    injection He as ->. simpl. by rewrite lookup_insert_eq.
Qed.

(** A block size of 0 makes [range] raise inside the pattern-based branch; the
    call still returns, with the failed outcome. *)
Lemma analyze_and_recover_total_witness :
  let '(o, self', _) :=
    attempt_decryption new_engine (example_clock 12) (Bytes (b "hello world"))
                       zero_block_strategy example_rng in
  success_level o = "failed" /\ confidence o = 0%Q
  /\ decrypted_content o = None /\ key_found o = false
  /\ details o !! "error" = Some (PStr "range() arg 3 must not be zero")
  /\ self' = new_engine.
Proof.
  exact (proj2 (proj2 analyze_and_recover_total) new_engine (example_clock 12)
           (Bytes (b "hello world")) zero_block_strategy example_rng
           (ValueError "range() arg 3 must not be zero") eq_refl).
Defined.

(** The header analysis of the buffer [hello world] as a ZIP file. *)
Lemma known_header_analysis_verified_witness :
  exists decrypted det,
    _apply_known_header_analysis (b "hello world") zip_strategy example_rng
    = (inr (Some decrypted, 8 # 10, true, det), example_rng)
    /\ decrypted
       = _xor_decrypt (b "hello world")
           (zip_with byte_xor (take (length PK34) (b "hello world")) PK34)
    /\ startswith decrypted PK34 = true.
Proof.
  apply (known_header_analysis_verified (b "hello world") zip_strategy example_rng "zip" PK34).
  - reflexivity.
  - apply list_elem_of_here.
  - reflexivity.
  - simpl. lia.
Defined.

(** At the boundary: the header analysis returns confidence 0.8 exactly, and
    the outcome is graded [partial]. *)
Lemma success_level_thresholds_witness :
  let o := (attempt_decryption new_engine (example_clock 12) (Bytes (b "hello world"))
              zip_strategy example_rng).1.1 in
  (confidence o == 8 # 10)%Q /\ success_level o = "partial" /\ success_level o <> "full".
Proof.
  intros o. split; [reflexivity|]. split; [reflexivity|].
  apply (success_level_thresholds new_engine (example_clock 12) (Bytes (b "hello world"))
           zip_strategy example_rng).
  reflexivity.
Defined.

(** After one successful call, the identifier [5] was never issued. *)
Lemma cache_entry_iff_success_witness :
  get_decrypted_content (run new_engine example_rng [first_call]).1.2 (IdInt 5) = None.
Proof.
  apply (proj2 cache_entry_iff_success [first_call] example_rng (IdInt 5)).
  vm_compute. intros H. inversion H as [|? ? ? H']; subst. inversion H'.
Defined.

(** * Further properties *)

(** ** Byte counts and entropy *)

Lemma count_step_lookup (counts : list nat) (data : bytes) (i : nat) :
  foldl (fun counts byte => alter S (N.to_nat (Byte.to_N byte)) counts) counts data !! i
  = (fun c => c + length (filter (fun c' => N.to_nat (Byte.to_N c') = i) data))
      <$> counts !! i.
Proof.
  revert counts. induction data as [|c data IH]; intros counts; simpl.
  - destruct (counts !! i); simpl; [f_equal; lia | done].
  - rewrite IH. destruct (decide (N.to_nat (Byte.to_N c) = i)) as [Hi|Hi].
    + rewrite filter_cons_True by done. subst i. rewrite list_lookup_alter_eq.
      destruct (counts !! _); simpl; [f_equal; lia | done].
    + rewrite filter_cons_False by done. by rewrite list_lookup_alter_ne.
Qed.

Lemma byte_counts_lookup (data : bytes) (i : nat) :
  i < 256 ->
  byte_counts data !! i = Some (Detector.count (Z.of_nat i) data).
Proof.
  intros Hi. unfold byte_counts. rewrite count_step_lookup.
  rewrite lookup_replicate_2 by done. simpl. f_equal. unfold Detector.count.
  f_equal. apply list_filter_iff. intros c. unfold ord. lia.
Qed.

Lemma byte_counts_range (data : bytes) :
  byte_counts data = map (fun x => Detector.count x data) (range2 0 256).
Proof.
  apply list_eq. intros i. unfold range2. rewrite !list_lookup_fmap.
  destruct (decide (i < 256)) as [Hi|Hi].
  - rewrite byte_counts_lookup by done. rewrite lookup_seq_lt by (simpl; lia).
    simpl. by rewrite Z.add_0_l.
  - rewrite lookup_ge_None_2 by (rewrite byte_counts_length; lia).
    rewrite lookup_seq_ge by (simpl; lia). done.
Qed.

Section entropy_more.

Local Open Scope R_scope.

Lemma log2_pow2 (n : nat) : log2 (2 ^ n) = INR n.
Proof.
  unfold log2. rewrite ln_pow by lra. pose proof ln2_pos. field. lra.
Qed.

Lemma log2_le (x y : R) : 0 < x -> x <= y -> log2 x <= log2 y.
Proof.
  intros Hx Hxy. unfold log2. pose proof ln2_pos as HL.
  apply Rmult_le_compat_r; [apply Rlt_le, Rinv_0_lt_compat; done|].
  destruct (Req_dec x y) as [->|Hne]; [lra|].
  apply Rlt_le, ln_increasing; lra.
Qed.

Lemma ln_div (x y : R) : 0 < x -> 0 < y -> ln (x / y) = ln x - ln y.
Proof.
  intros Hx Hy. unfold Rdiv. rewrite ln_mult, ln_Rinv by (try apply Rinv_0_lt_compat; lra).
  lra.
Qed.

Lemma log2_div (x y : R) : 0 < x -> 0 < y -> log2 (x / y) = log2 x - log2 y.
Proof.
  intros Hx Hy. unfold log2. rewrite ln_div by done. pose proof ln2_pos. field. lra.
Qed.

Lemma log2_1 : log2 1 = 0.
Proof. unfold log2. rewrite ln_1. unfold Rdiv. lra. Qed.

(** The bound behind every estimate of the entropy: a term of the sum
    against a reference weight [q]. *)
Lemma plogp_reference (p q : R) :
  0 <= p -> 0 < q -> - plogp p <= p * log2 (/ q) + (q - p) / ln 2.
Proof.
  intros H0 Hq. pose proof ln2_pos as HL. unfold plogp, log2.
  destruct (Rgt_dec p 0) as [Hp|Hp].
  - assert (0 < q / p) as Hqp by (apply Rdiv_lt_0_compat; lra).
    pose proof (ln_le_pred _ Hqp) as Hln.
    rewrite ln_div in Hln by lra.
    rewrite ln_Rinv by done.
    assert (p * (q / p - 1) = q - p) as Hfield by (field; lra).
    assert (p * (ln q - ln p) <= q - p) as Hmain by nra.
    apply Rmult_le_reg_r with (ln 2); [done|].
    replace ((p * (- ln q / ln 2) + (q - p) / ln 2) * ln 2)
      with (p * - ln q + (q - p)) by (field; lra).
    replace (- (p * (ln p / ln 2)) * ln 2) with (- (p * ln p)) by (field; lra).
    lra.
  - assert (p = 0) as -> by lra.
    assert (0 <= (q - 0) / ln 2); [|lra].
    apply Rmult_le_pos; [lra|]. apply Rlt_le, Rinv_0_lt_compat. done.
Qed.

Lemma np_sum_neg (f : R -> R) (ps : list R) :
  np_sum (map (fun p => - f p) ps) = - np_sum (map f ps).
Proof.
  induction ps as [|p ps IH]; simpl; [lra|].
  fold (np_sum (map (fun p => - f p) ps)). fold (np_sum (map f ps)). rewrite IH. lra.
Qed.

Lemma np_sum_scale (a : R) (ps : list R) :
  np_sum (map (fun p => p * a) ps) = np_sum ps * a.
Proof.
  induction ps as [|p ps IH]; simpl; [lra|].
  fold (np_sum (map (fun p => p * a) ps)). fold (np_sum ps). rewrite IH. lra.
Qed.

Lemma entropy_as_sum (data : bytes) :
  data <> [] -> _calculate_entropy data = - np_sum (map plogp (frequencies_of data)).
Proof.
  intros Hne. unfold _calculate_entropy. rewrite bool_decide_eq_false_2 by done.
  rewrite entropy_fold. lra.
Qed.

Lemma frequency_shape (data : bytes) (p : R) :
  p ∈ frequencies_of data ->
  exists c : nat, c ∈ byte_counts data /\ p = INR c / INR (length data).
Proof.
  unfold frequencies_of. intros (c & -> & Hc)%list_elem_of_fmap. eauto.
Qed.

Lemma length_pos_INR (data : bytes) : data <> [] -> 0 < INR (length data).
Proof. intros Hne. apply lt_0_INR. destruct data; [done | simpl; lia]. Qed.

Lemma entropy_le_log2_length_ne (data : bytes) :
  data <> [] -> _calculate_entropy data <= log2 (INR (length data)).
Proof.
  intros Hne. rewrite entropy_as_sum by done. rewrite <- np_sum_neg.
  pose proof (length_pos_INR data Hne) as Hn. pose proof ln2_pos as HL.
  assert (np_sum (map (fun p => - plogp p) (frequencies_of data))
          <= np_sum (map (fun p => p * log2 (INR (length data))) (frequencies_of data)))
    as H.
  { apply np_sum_le. intros p (c & _ & ->)%frequency_shape.
    unfold plogp. destruct (Rgt_dec _ _) as [Hp|Hp].
    - assert (0 < INR c) as Hc.
      { destruct c; [|apply lt_0_INR; lia]. simpl in Hp. unfold Rdiv in Hp. lra. }
      assert (1 <= INR c) as Hc1.
      { destruct c; [simpl in Hc; lra|]. rewrite S_INR. pose proof (pos_INR c). lra. }
      assert (- log2 (INR c / INR (length data)) <= log2 (INR (length data))) as Hl.
      { rewrite log2_div by done. pose proof (log2_le 1 (INR c) ltac:(lra) Hc1) as Hl.
        rewrite log2_1 in Hl. lra. }
      assert (0 < INR c / INR (length data)) by (apply Rdiv_lt_0_compat; lra).
      nra.
    - assert (INR c / INR (length data) = 0) as ->.
      { assert (0 <= INR c / INR (length data)); [|lra].
        apply Rmult_le_pos; [apply pos_INR|]. apply Rlt_le, Rinv_0_lt_compat. done. }
      lra. }
  rewrite np_sum_scale, frequencies_sum in H by done. lra.
Qed.

Lemma entropy_lt_bits (data : bytes) (k : nat) :
  data <> [] -> (length data < 2 ^ k)%nat -> _calculate_entropy data < INR k.
Proof.
  intros Hne Hlen. pose proof (entropy_le_log2_length_ne data Hne) as H.
  pose proof (length_pos_INR data Hne) as Hn. pose proof ln2_pos as HL.
  apply lt_INR in Hlen. rewrite pow_INR in Hlen.
  replace (INR 2) with 2 in Hlen by (simpl; lra).
  assert (log2 (INR (length data)) < log2 (2 ^ k)) as Hlt.
  { unfold log2. apply Rmult_lt_compat_r; [by apply Rinv_0_lt_compat|].
    by apply ln_increasing. }
  rewrite log2_pow2 in Hlt. lra.
Qed.

End entropy_more.

(** X1.  A buffer that is not empty and has fewer than [2 ^ k] bytes has an
    entropy strictly below [k] bits: under 128 bytes the entropy is below
    7, under 64 bytes below 6.  (The entropy is at most the base-2
    logarithm of the length; for [k] up to 8 that leaves a gap of at least
    [log2 (256 / 255)] to [k], and beyond 8 a gap of at least 1.) *)
Theorem entropy_below_bits (data : bytes) (k : nat) :
  data <> [] -> length data < 2 ^ k -> (_calculate_entropy data < INR k)%R.
Proof. apply entropy_lt_bits. Qed.

(** Eleven bytes stay below 4 bits. *)
Lemma entropy_below_bits_witness : (_calculate_entropy (b "hello world") < INR 4)%R.
Proof. apply (entropy_below_bits (b "hello world") 4); [discriminate | simpl; lia]. Defined.

Section entropy_shapes.

Local Open Scope R_scope.

Lemma np_sum_ext (f g : R -> R) (ps : list R) :
  (forall p, p ∈ ps -> f p = g p) -> np_sum (map f ps) = np_sum (map g ps).
Proof.
  intros H. apply Rle_antisym; apply np_sum_le; intros p Hp; rewrite (H p Hp); lra.
Qed.

Lemma entropy_equal_counts (data : bytes) (k : nat) :
  data <> [] -> (0 < k)%nat ->
  Forall (fun c => c = 0%nat \/ c = k) (byte_counts data) ->
  _calculate_entropy data = log2 (INR (length data) / INR k).
Proof.
  intros Hne Hk Hall. rewrite entropy_as_sum by done.
  pose proof (length_pos_INR data Hne) as Hn.
  assert (0 < INR k) as HkR by (by apply lt_0_INR).
  rewrite (np_sum_ext _ (fun p => p * log2 (INR k / INR (length data)))).
  - rewrite np_sum_scale, frequencies_sum by done.
    rewrite !log2_div by done. lra.
  - intros p (c & Hc & ->)%frequency_shape.
    rewrite Forall_forall in Hall. unfold plogp.
    destruct (Hall c Hc) as [-> | ->].
    + simpl (INR 0). replace (0 / INR (length data)) with 0 by (unfold Rdiv; lra).
      destruct (Rgt_dec 0 0); lra.
    + destruct (Rgt_dec _ _) as [|Hn0]; [done|].
      exfalso. apply Hn0. apply Rdiv_lt_0_compat; lra.
Qed.

Lemma frequencies_head (data : bytes) :
  exists rest,
    frequencies_of data = INR (Detector.count 0 data) / INR (length data) :: rest
    /\ length rest = 255%nat.
Proof.
  unfold frequencies_of.
  pose proof (byte_counts_lookup data 0 ltac:(lia)) as H0.
  pose proof (byte_counts_length data) as Hl.
  destruct (byte_counts data) as [|c0 crest]; [done|].
  simpl in H0. injection H0 as ->. simpl in Hl.
  exists (map (fun c : nat => INR c / INR (length data)) crest).
  split; [reflexivity|]. rewrite length_map. lia.
Qed.

Lemma entropy_zero_ratio_ne (data : bytes) :
  data <> [] ->
  _calculate_entropy data <= 9 - 8 * (INR (Detector.count 0 data) / INR (length data)).
Proof.
  intros Hne. rewrite entropy_as_sum by done. rewrite <- np_sum_neg.
  pose proof ln2_pos as HL.
  pose proof (frequencies_sum data Hne) as Hsum.
  pose proof (fun p => frequencies_range data p Hne) as Hrange.
  destruct (frequencies_head data) as (rest & Hf & Hlen).
  rewrite Hf in *. set (p0 := INR (Detector.count 0 data) / INR (length data)) in *.
  cbn [map np_sum foldr] in *. fold (np_sum rest) in Hsum.
  fold (np_sum (map (fun p => - plogp p) rest)).
  pose proof (plogp_reference p0 (1 / 2) (proj1 (Hrange p0 ltac:(left))) ltac:(lra)) as H0.
  replace (/ (1 / 2)) with (2 ^ 1) in H0 by field. rewrite log2_pow2 in H0.
  assert (np_sum (map (fun p => - plogp p) rest)
          <= np_sum (map (fun p => (9 - / ln 2) * p + 1 / 512 / ln 2) rest)) as Hr.
  { apply np_sum_le. intros p Hp.
    pose proof (plogp_reference p (1 / 512) (proj1 (Hrange p ltac:(by right))) ltac:(lra))
      as Hb.
    replace (/ (1 / 512)) with (2 ^ 9) in Hb by field. rewrite log2_pow2 in Hb.
    replace ((9 - / ln 2) * p + 1 / 512 / ln 2)
      with (p * INR 9 + (1 / 512 - p) / ln 2) by (simpl; field; lra).
    done. }
  rewrite np_sum_affine, Hlen in Hr.
  assert (INR 255 = 255) as H255 by (rewrite INR_IZR_INZ; reflexivity).
  rewrite H255 in Hr. simpl (INR 1) in H0.
  assert (0 < / ln 2) as Hinv by (by apply Rinv_0_lt_compat).
  assert ((9 - / ln 2) * np_sum rest + 255 * (1 / 512 / ln 2)
          = 9 * np_sum rest + (255 / 512 - np_sum rest) * / ln 2) as Heq by (field; lra).
  unfold Rdiv in H0. nra.
Qed.

Lemma detector_entropy_fold (f : Z -> R) (xs : list Z) (a : R) :
  foldl (fun entropy x =>
           let p_x := f x in
           if Rgt_dec p_x 0 then entropy + - p_x * log2 p_x else entropy) a xs
  = a - np_sum (map plogp (map f xs)).
Proof.
  revert a. induction xs as [|x xs IH]; intros a; simpl; [lra|].
  rewrite IH. fold (np_sum (map plogp (map f xs))). unfold plogp.
  destruct (Rgt_dec (f x) 0); lra.
Qed.

Lemma entropy_dyadic (data : bytes) (k j : nat) :
  (0 < k)%nat ->
  Forall (fun c => c = 0%nat \/ c = k) (byte_counts data) ->
  length data = (k * 2 ^ j)%nat ->
  _calculate_entropy data = INR j.
Proof.
  intros Hk Hall Hlen.
  assert (data <> []) as Hne.
  { intros ->. simpl in Hlen. pose proof (Nat.pow_nonzero 2 j). nia. }
  rewrite (entropy_equal_counts data k) by done.
  rewrite Hlen, mult_INR, pow_INR. replace (INR 2) with 2 by (simpl; lra).
  assert (INR k <> 0) by (apply not_0_INR; lia).
  replace (INR k * 2 ^ j / INR k) with (2 ^ j) by (by field).
  apply log2_pow2.
Qed.

End entropy_shapes.

(** X2.  When the byte values that occur in a buffer number a power of two,
    [2 ^ j], and each occurs the same number [k] of times, the entropy is
    exactly [j]: every frequency is [2 ^ -j], every term of the sum is
    [j / 2 ^ j], and nothing is rounded.  So a buffer in which all 256
    values are equally frequent has entropy exactly 8. *)
Theorem entropy_power_of_two (data : bytes) (k j : nat) :
  0 < k ->
  Forall (fun c => c = 0 \/ c = k) (byte_counts data) ->
  length data = k * 2 ^ j ->
  _calculate_entropy data = INR j.
Proof. apply entropy_dyadic. Qed.

(** The buffer of the 256 byte values, once each, has entropy 8. *)
Lemma entropy_power_of_two_witness : _calculate_entropy all_bytes = INR 8.
Proof.
  apply (entropy_power_of_two all_bytes 1 8).
  - lia.
  - apply Forall_forall. intros c Hc. right.
    revert c Hc. apply Forall_forall. by vm_compute; repeat constructor.
  - reflexivity.
Defined.

(** X3.  The more zero bytes, the lower the entropy: for a buffer that is not
    empty the entropy is at most 9 minus 8 times the share of zero
    bytes. *)
Theorem entropy_zero_ratio (c : byte) (rest : bytes) :
  (_calculate_entropy (c :: rest)
   <= 9 - 8 * (INR (Detector.count 0 (c :: rest)) / INR (length (c :: rest))))%R.
Proof. by apply entropy_zero_ratio_ne. Qed.

Lemma detector_entropy_eq (data : bytes) :
  Detector._calculate_entropy data = _calculate_entropy data.
Proof.
  unfold Detector._calculate_entropy, _calculate_entropy.
  case_bool_decide; [done|].
  rewrite (detector_entropy_fold
             (fun x => (INR (Detector.count x data) / INR (length data))%R)).
  rewrite entropy_fold. do 2 f_equal.
  unfold frequencies_of. rewrite byte_counts_range, map_map. done.
Qed.

(** X4.  The detector and the engine compute the same entropy. *)
Theorem detector_entropy_agrees (data : bytes) :
  Detector._calculate_entropy data = _calculate_entropy data.
Proof. apply detector_entropy_eq. Qed.

(** ** The detector *)

Lemma ratio_above_real (c n : nat) (a : Z) (d : positive) :
  (0 < n)%nat -> (0 <= a)%Z ->
  (a # d < Z.of_nat c # Pos.of_nat n)%Q ->
  (IZR a / IZR (Z.pos d) < INR c / INR n)%R.
Proof.
  intros Hn Ha Hq. unfold Qlt in Hq. cbn [Qnum Qden] in Hq.
  assert (Z.pos (Pos.of_nat n) = Z.of_nat n) as Hpos.
  { rewrite <- (positive_nat_Z (Pos.of_nat n)), Nat2Pos.id; lia. }
  rewrite Hpos in Hq. apply IZR_lt in Hq. rewrite !mult_IZR, <- !INR_IZR_INZ in Hq.
  assert (0 < INR n)%R as HnR by (by apply lt_0_INR).
  assert (0 < IZR (Z.pos d))%R as HdR by (apply IZR_lt; lia).
  apply Rmult_lt_reg_r with (IZR (Z.pos d) * INR n)%R; [nra|].
  replace (IZR a / IZR (Z.pos d) * (IZR (Z.pos d) * INR n))%R with (IZR a * INR n)%R
    by (field; lra).
  replace (INR c / INR n * (IZR (Z.pos d) * INR n))%R with (INR c * IZR (Z.pos d))%R
    by (field; lra).
  done.
Qed.

(** X5.  The detector's encryption test never fires on a buffer's own
    entropy: a share of zero bytes between 45% and 55% keeps the entropy
    below 5.4, so it cannot also be above 7.  On the empty buffer the test
    divides by zero. *)
Theorem detect_encryption_never (e : R) (c : byte) (rest : bytes) :
  Detector._detect_encryption (c :: rest) (Detector._calculate_entropy (c :: rest))
  = inr false
  /\ Detector._detect_encryption [] e = inl (ZeroDivisionError "division by zero").
Proof.
  split; [|done]. set (data := c :: rest).
  unfold Detector._detect_encryption. change (length data =? 0) with false. cbv iota.
  rewrite detector_entropy_eq.
  destruct (Rgt_dec (_calculate_entropy data) 7) as [Hhigh|]; [|done].
  destruct (Qltb (45 # 100) _) eqn:Hq; [|done]. exfalso.
  apply Qltb_lt in Hq.
  apply (ratio_above_real (Detector.count 0 data) (length data) 45 100) in Hq;
    [|simpl; lia|lia].
  pose proof (entropy_zero_ratio_ne data ltac:(done)) as Hb. lra.
Qed.

Section percentage.

Local Open Scope R_scope.

Lemma fmin_le_r (x y : R) : Detector.fmin x y <= y.
Proof. unfold Detector.fmin. destruct (Rlt_dec y x); lra. Qed.

Lemma fmin_ge (x y z : R) : z <= x -> z <= y -> z <= Detector.fmin x y.
Proof. unfold Detector.fmin. destruct (Rlt_dec y x); lra. Qed.

Lemma np_std_nonneg (a : list R) : 0 <= np_std a.
Proof. unfold np_std. apply sqrt_pos. Qed.

(** X6.  The estimated share of encryption never exceeds 100; it is at
    least 0 whenever the entropy is not negative and the compressed buffer
    is at most twice as long as the buffer. *)
Theorem encryption_percentage_bounds
    (entropy compression_ratio : R) (byte_distribution : list (Z * R)) :
  Detector._calculate_encryption_percentage entropy compression_ratio byte_distribution
  <= 100
  /\ (0 <= entropy /\ compression_ratio <= 2 ->
      0 <= Detector._calculate_encryption_percentage entropy compression_ratio
             byte_distribution).
Proof.
  unfold Detector._calculate_encryption_percentage.
  set (std_dev := match map snd byte_distribution with [] => 0 | _ => _ end).
  assert (0 <= std_dev) as Hstd.
  { unfold std_dev. destruct (map snd byte_distribution); [lra | apply np_std_nonneg]. }
  pose proof (fmin_le_r (entropy / 8) 1).
  pose proof (fmin_le_r (2 - compression_ratio) 1).
  pose proof (fmin_le_r (std_dev * 20) 1).
  pose proof (fmin_ge (std_dev * 20) 1 0 ltac:(lra) ltac:(lra)).
  split; [lra|]. intros [He Hc].
  pose proof (fmin_ge (entropy / 8) 1 0 ltac:(lra) ltac:(lra)).
  pose proof (fmin_ge (2 - compression_ratio) 1 0 ltac:(lra) ltac:(lra)).
  lra.
Qed.

End percentage.

(** ** Analysis of short buffers *)

Lemma entropy_short (data : bytes) :
  length data < 32 -> (_calculate_entropy data <= 5)%R.
Proof.
  intros Hlen. destruct (decide (data = [])) as [->|Hne].
  { unfold _calculate_entropy. simpl. lra. }
  pose proof (entropy_le_log2_length_ne data Hne) as H.
  pose proof (length_pos_INR data Hne) as Hn.
  assert (INR (length data) <= 2 ^ 5)%R as Hle.
  { assert (INR 32 = 2 ^ 5)%R as <-
      by (rewrite INR_IZR_INZ; change (Z.of_nat 32) with 32%Z; lra).
    apply le_INR. lia. }
  pose proof (log2_le _ _ Hn Hle) as Hl. rewrite log2_pow2 in Hl.
  simpl in Hl. lra.
Qed.

(** X7.  A buffer shorter than 32 bytes is never classified as encrypted:
    its analysis succeeds, the label is the marker label or the
    no-encryption label, and the strategy is [generic_recovery] with a
    success probability of 0.2. *)
Theorem short_buffer_analysis (clk : clock) (fc : file_content) :
  length (content_of fc) < 32 ->
  exists a,
    analyze_encryption clk fc = inr a
    /\ (encryption_type a = "No encryption detected"
        \/ encryption_type a = "Possible ransomware marker, no strong encryption")
    /\ strategy_name (strategy a) = Some "generic_recovery"
    /\ strategy_success_probability (strategy a) = Some (2 # 10)
    /\ file_size a = length (content_of fc).
Proof.
  intros Hlen. pose proof (entropy_short _ Hlen) as He.
  unfold analyze_encryption.
  destruct (analyze_byte_distribution_returns (content_of fc)) as [bd ->].
  unfold _detect_encryption_patterns, _has_repeating_blocks, _check_xor_pattern.
  rewrite (proj2 (Z.ltb_lt _ _)) by lia.
  rewrite (proj2 (Nat.ltb_lt _ _)) by lia.
  cbn [bind ret]. eexists. split; [reflexivity|].
  cbn [encryption_type strategy file_size].
  unfold _determine_encryption_type.
  destruct (Rgt_dec _ (78 / 10)); [lra|].
  destruct (Rgt_dec _ 7); [lra|].
  destruct (Rgt_dec _ 6); [lra|].
  cbn [has_ransomware_markers].
  destruct (_check_ransomware_markers (content_of fc)).
  - split; [by right|].
    unfold _develop_decryption_strategy.
    change (str_contains _ "XOR") with false.
    change (str_startswith _ "Weak encryption") with false.
    cbn [andb has_repeating_blocks]. destruct (Rgt_dec _ 7); [lra|]. done.
  - split; [by left|].
    unfold _develop_decryption_strategy.
    change (str_contains _ "XOR") with false.
    change (str_startswith _ "Weak encryption") with false.
    cbn [andb has_repeating_blocks]. destruct (Rgt_dec _ 7); [lra|]. done.
Qed.

(** The analysis of the empty buffer. *)
Lemma short_buffer_analysis_witness :
  exists a,
    analyze_encryption (example_clock 12) (Bytes []) = inr a
    /\ (encryption_type a = "No encryption detected"
        \/ encryption_type a = "Possible ransomware marker, no strong encryption")
    /\ strategy_name (strategy a) = Some "generic_recovery"
    /\ strategy_success_probability (strategy a) = Some (2 # 10)
    /\ file_size a = length (content_of (Bytes [])).
Proof. apply (short_buffer_analysis (example_clock 12) (Bytes [])). simpl. lia. Defined.

(** ** Running the strategy the analysis proposes *)

Lemma analyze_inv (clk : clock) (fc : file_content) (a : Analysis) :
  analyze_encryption clk fc = inr a ->
  exists bd pa,
    _detect_encryption_patterns (content_of fc) = inr pa
    /\ strategy a
       = _develop_decryption_strategy (encryption_type a) (entropy a) bd
           (_analyze_file_header (content_of fc)) pa
    /\ encryption_type a
       = _determine_encryption_type (entropy a) bd
           (_analyze_file_header (content_of fc)) pa
    /\ entropy a = _calculate_entropy (content_of fc).
Proof.
  unfold analyze_encryption.
  destruct (_analyze_byte_distribution _) as [?|bd]; [done|].
  destruct (_detect_encryption_patterns _) as [?|pa]; [done|].
  simpl. intros [= <-]. by exists bd, pa.
Qed.

Lemma develop_cases etype e bd ha pa :
  let s := _develop_decryption_strategy etype e bd ha pa in
  (strategy_name s = Some "xor_bruteforce" /\ strategy_key_size_range s = Some [1; 8]%Z)
  \/ (strategy_name s = Some "known_header_analysis"
      /\ strategy_file_type s = Some (file_type ha) /\ identified ha = true)
  \/ (strategy_name s = Some "pattern_based_recovery"
      /\ strategy_block_size s = Some 16%Z)
  \/ strategy_name s = Some "partial_key_recovery"
  \/ strategy_name s = Some "generic_recovery".
Proof.
  cbv zeta. unfold _develop_decryption_strategy.
  destruct (str_contains etype "XOR"); [by left|].
  destruct (str_startswith etype "Weak encryption" && identified ha) eqn:Hw.
  { apply andb_true_iff in Hw as [_ Hid]. right. by left. }
  destruct (has_repeating_blocks pa); [right; right; by left|].
  destruct (Rgt_dec e 7); simpl;
    [destruct (from_option is_uniform false bd); simpl|];
    right; right; right; (by left) || (by right).
Qed.

Lemma header_identified_known (data : bytes) :
  identified (_analyze_file_header data) = true ->
  16 <= length data
  /\ exists expected,
       known_headers !! file_type (_analyze_file_header data) = Some expected
       /\ length expected <= 16.
Proof.
  unfold _analyze_file_header.
  destruct (Nat.ltb_spec (length data) 16); [done|].
  repeat case_match; simpl; intros; try done;
    (split; [lia|]; eexists; split; [vm_compute; reflexivity | simpl; lia]).
Qed.

Lemma known_header_result (content : bytes) (strat : Strategy) (g : rng)
    (ft : string) (expected : bytes) :
  strategy_file_type strat = Some ft ->
  known_headers !! ft = Some expected ->
  length expected <= length content ->
  _apply_known_header_analysis content strat g
  = (inr (Some (_xor_decrypt content
                   (zip_with byte_xor (take (length expected) content) expected)),
          8 # 10, true,
          <["file_type" := PStr ft]>
          (<["decryption_method" := PStr "Header-based XOR"]>
          (<["key_hex" := PStr (hex (zip_with byte_xor (take (length expected) content)
                                              expected))]> (∅ : dict)))), g).
Proof.
  intros Hft Hknown Hlen. unfold _apply_known_header_analysis.
  rewrite Hft. simpl. rewrite Hknown.
  destruct (Nat.ltb_spec (length content) (length expected)) as [?|_]; [lia|].
  by rewrite header_key_recovers by done.
Qed.

Lemma dispatch_by_name (content : bytes) (strat : Strategy) (name : string) :
  strategy_name strat = Some name ->
  dispatch content strat
  = if bool_decide (name = "xor_bruteforce") then _apply_xor_bruteforce content strat
    else if bool_decide (name = "known_header_analysis") then
      _apply_known_header_analysis content strat
    else if bool_decide (name = "pattern_based_recovery") then
      _apply_pattern_based_recovery content strat
    else if bool_decide (name = "partial_key_recovery") then
      _apply_partial_key_recovery content strat
    else _apply_generic_recovery content strat.
Proof. intros H. unfold dispatch. by rewrite H. Qed.

Ltac clean_branch :=
  unfold clean, mbind, lift, draw, mret; simpl;
  repeat case_match; simplify_eq;
  eexists _, _, _, _, _; (split; [reflexivity | absent_key]).

Lemma xor_bruteforce_clean content strat g lo hi rest :
  strategy_key_size_range strat = Some (lo :: hi :: rest) ->
  clean (_apply_xor_bruteforce content strat) g.
Proof.
  intros Hr. unfold _apply_xor_bruteforce, index. rewrite Hr. clean_branch.
Qed.

Lemma pattern_based_clean content strat g bs :
  strategy_block_size strat = Some bs -> bs <> 0%Z ->
  clean (_apply_pattern_based_recovery content strat) g.
Proof.
  intros Hb Hz. unfold _apply_pattern_based_recovery, range3. rewrite Hb.
  simpl (default _ _). destruct (Z.eqb_spec bs 0); [done|]. clean_branch.
Qed.

Lemma partial_key_clean content strat g :
  clean (_apply_partial_key_recovery content strat) g.
Proof. unfold _apply_partial_key_recovery. clean_branch. Qed.

Lemma generic_clean content strat g :
  clean (_apply_generic_recovery content strat) g.
Proof. unfold _apply_generic_recovery. clean_branch. Qed.

Lemma grade_details (self : DecryptionEngine) (clk : clock) (r : recovery) (k : string) :
  k <> "decryption_id" -> r.2 !! k = None -> details (grade self clk r).1 !! k = None.
Proof.
  destruct r as [[[c q] f] det]. simpl. intros Hk Hd. unfold grade.
  repeat case_match; simplify_eq; simpl; rewrite ?lookup_insert_ne by done; done.
Qed.

(** X8.  The strategy that the analysis of a buffer proposes never makes the
    executor raise on that buffer: the outcome of the recovery has no
    [error] entry in its details. *)
Theorem proposed_strategy_runs_clean
    (clk clk' : clock) (fc : file_content) (self : DecryptionEngine) (g : rng) :
  exists a,
    analyze_encryption clk fc = inr a
    /\ (exists r g', dispatch (content_of fc) (strategy a) g = (inr r, g'))
    /\ details (attempt_decryption self clk' fc (strategy a) g).1.1 !! "error" = None.
Proof.
  destruct (analyze_encryption_returns clk fc) as [a Ha]. exists a. split; [done|].
  destruct (analyze_inv clk fc a Ha) as (bd & pa & _ & Hs & _).
  assert (clean (dispatch (content_of fc) (strategy a)) g) as (c & q & f & det & g' & Hd & He).
  { rewrite Hs.
    destruct (develop_cases (encryption_type a) (entropy a) bd
                (_analyze_file_header (content_of fc)) pa)
      as [[Hn Hr] | [(Hn & Hft & Hid) | [[Hn Hb] | [Hn | Hn]]]];
      rewrite (dispatch_by_name _ _ _ Hn); simpl.
    - by eapply xor_bruteforce_clean.
    - destruct (header_identified_known _ Hid) as (Hlen & expected & Hk & Hel).
      unfold clean. rewrite (known_header_result _ _ _ _ _ Hft Hk) by lia.
      eexists _, _, _, _, _. split; [reflexivity | absent_key].
    - by eapply pattern_based_clean.
    - apply partial_key_clean.
    - apply generic_clean. }
  split; [by eauto|].
  unfold attempt_decryption. rewrite Hd. simpl.
  by apply (grade_details self clk' (c, q, f, det)).
Qed.

Lemma truthy_length (l : bytes) : 0 < length l -> truthy (Some l) = true.
Proof. destruct l; simpl; [lia | done]. Qed.

(** X9.  Whenever the analysis of a buffer proposes the header analysis,
    running it on that buffer gives a [partial] outcome at confidence 0.8
    with the key reported found: the recovered buffer has the length of the
    input and starts with the magic bytes of the detected file type, and no
    random number is drawn.  The outcome is never [full]. *)
Theorem header_strategy_recovers
    (clk clk' : clock) (fc : file_content) (a : Analysis) (self : DecryptionEngine)
    (g : rng) :
  analyze_encryption clk fc = inr a ->
  strategy_name (strategy a) = Some "known_header_analysis" ->
  exists ft expected decrypted,
    strategy_file_type (strategy a) = Some ft
    /\ known_headers !! ft = Some expected
    /\ startswith decrypted expected = true
    /\ length decrypted = length (content_of fc)
    /\ let '(o, _, g') := attempt_decryption self clk' fc (strategy a) g in
       success_level o = "partial" /\ confidence o = 8 # 10 /\ key_found o = true
       /\ decrypted_content o = Some decrypted /\ g' = g.
Proof.
  intros Ha Hname.
  destruct (analyze_inv clk fc a Ha) as (bd & pa & _ & Hs & _).
  pose proof (develop_cases (encryption_type a) (entropy a) bd
                (_analyze_file_header (content_of fc)) pa) as Hc.
  cbv zeta in Hc. rewrite <- Hs in Hc.
  destruct Hc as [[Hn _] | [(_ & Hft & Hid) | [[Hn _] | [Hn | Hn]]]]; try congruence.
  destruct (header_identified_known _ Hid) as (Hlen & expected & Hk & Hel).
  exists (file_type (_analyze_file_header (content_of fc))), expected,
    (_xor_decrypt (content_of fc)
       (zip_with byte_xor (take (length expected) (content_of fc)) expected)).
  split; [exact Hft|]. split; [exact Hk|].
  split; [apply header_key_recovers; lia|].
  split; [apply xor_decrypt_length|].
  unfold attempt_decryption. rewrite (dispatch_by_name _ _ _ Hname). simpl.
  rewrite (known_header_result _ _ _ _ _ Hft Hk) by lia.
  unfold grade. rewrite truthy_length by (rewrite xor_decrypt_length; lia).
  done.
Qed.

Lemma zip_sample_entropy : _calculate_entropy zip_sample = 7%R.
Proof.
  rewrite (entropy_equal_counts zip_sample 1).
  - change (length zip_sample) with 128. change (INR 1) with 1%R.
    replace (INR 128 / 1)%R with (2 ^ 7)%R.
    + rewrite log2_pow2. rewrite INR_IZR_INZ. reflexivity.
    + rewrite INR_IZR_INZ. change (Z.of_nat 128) with 128%Z. lra.
  - discriminate.
  - lia.
  - vm_compute.
    repeat (apply Forall_cons; split; [first [by left | by right]|]). by apply Forall_nil.
Qed.

Lemma zip_sample_strategy (clk : clock) (a : Analysis) :
  analyze_encryption clk (Bytes zip_sample) = inr a ->
  strategy_name (strategy a) = Some "known_header_analysis".
Proof.
  intros Ha. destruct (analyze_inv _ _ _ Ha) as (bd & pa & _ & Hs & Ht & He).
  simpl in *. rewrite Hs, Ht, He, zip_sample_entropy.
  assert (_analyze_file_header zip_sample
          = {| header_hex := Some (hex (take 16 zip_sample)); identified := true;
               file_type := "zip"; possible_encryption := None;
               header_entropy := None |}) as -> by reflexivity.
  unfold _determine_encryption_type.
  destruct (Rgt_dec 7 (78 / 10)); [lra|].
  destruct (Rgt_dec 7 7); [lra|].
  destruct (Rgt_dec 7 6); [|lra].
  reflexivity.
Qed.

(** The analysis of [zip_sample] proposes the header analysis, which then
    recovers a buffer that starts like a ZIP file. *)
Lemma header_strategy_recovers_witness :
  exists a ft expected decrypted,
    analyze_encryption (example_clock 12) (Bytes zip_sample) = inr a
    /\ strategy_file_type (strategy a) = Some ft
    /\ known_headers !! ft = Some expected
    /\ startswith decrypted expected = true
    /\ length decrypted = length (content_of (Bytes zip_sample))
    /\ let '(o, _, g') :=
         attempt_decryption new_engine (example_clock 12) (Bytes zip_sample)
                            (strategy a) example_rng in
       success_level o = "partial" /\ confidence o = 8 # 10 /\ key_found o = true
       /\ decrypted_content o = Some decrypted /\ g' = example_rng.
Proof.
  destruct (analyze_encryption_returns (example_clock 12) (Bytes zip_sample)) as [a Ha].
  destruct (header_strategy_recovers (example_clock 12) (example_clock 12)
              (Bytes zip_sample) a new_engine example_rng Ha
              (zip_sample_strategy _ a Ha))
    as (ft & expected & decrypted & H).
  exists a, ft, expected, decrypted. split; [exact Ha | exact H].
Defined.

(** ** What the branches can and cannot return *)

Lemma map_blocks_step_size (l : list (nat * bytes)) (m : gmap bytes (list nat)) :
  size (foldl (fun (block_map : gmap bytes (list nat)) '(i, block) =>
                 match block_map !! block with
                 | Some positions => <[block := positions ++ [i]]> block_map
                 | None => <[block := [i]]> block_map
                 end) m l)
  <= size m + length l.
Proof.
  revert m. induction l as [|[i block] l IH]; intros m; simpl; [lia|].
  etrans; [apply IH|].
  destruct (m !! block) eqn:Hb.
  - rewrite map_size_insert_Some by done. lia.
  - rewrite map_size_insert_None by done. lia.
Qed.

Lemma map_blocks_size (blocks : list bytes) : size (map_blocks blocks) <= length blocks.
Proof.
  unfold map_blocks. etrans; [apply map_blocks_step_size|].
  rewrite map_size_empty, length_imap. lia.
Qed.

Lemma block_ratio_le_1 (r n : nat) :
  r <= n -> (Z.of_nat r # Pos.of_nat (Nat.max n 1) <= 1)%Q.
Proof.
  intros Hr. unfold Qle. cbn [Qnum Qden].
  assert (Z.pos (Pos.of_nat (Nat.max n 1)) = Z.of_nat (Nat.max n 1)) as ->.
  { rewrite <- (positive_nat_Z (Pos.of_nat _)), Nat2Pos.id; lia. }
  lia.
Qed.

Lemma block_ratio_ge_0 (r n : nat) : (0 <= Z.of_nat r # Pos.of_nat n)%Q.
Proof. unfold Qle. cbn [Qnum Qden]. lia. Qed.

Lemma pattern_based_confidence content strat g c q f det g' :
  _apply_pattern_based_recovery content strat g = (inr (c, q, f, det), g') ->
  (4 # 10 <= q)%Q /\ (q <= 7 # 10)%Q.
Proof.
  unfold _apply_pattern_based_recovery. intros H. step_M.
  match goal with
  | |- context [Z.of_nat (size (filter ?P (map_blocks ?bl))) # _] =>
      pose proof (block_ratio_le_1 (size (filter P (map_blocks bl))) (length bl)
                    ltac:(etrans; [apply map_size_filter | apply map_blocks_size])) as Hle;
      pose proof (block_ratio_ge_0 (size (filter P (map_blocks bl)))
                    (Nat.max (length bl) 1)) as Hge
  end.
  split; lra.
Qed.

Lemma known_header_confidence content strat g c q f det g' :
  _apply_known_header_analysis content strat g = (inr (c, q, f, det), g') ->
  (q <= 8 # 10)%Q.
Proof.
  unfold _apply_known_header_analysis, simulated_header_analysis.
  intros H. step_M; by vm_compute.
Qed.

Lemma partial_key_confidence content strat g c q f det g' :
  _apply_partial_key_recovery content strat g = (inr (c, q, f, det), g') ->
  (q <= 8 # 10)%Q.
Proof.
  unfold _apply_partial_key_recovery. intros H. step_M; by vm_compute.
Qed.

Lemma attempt_not_full self clk fc strat g :
  (forall c q f det g',
     dispatch (content_of fc) strat g = (inr (c, q, f, det), g') -> (q <= 8 # 10)%Q) ->
  success_level (attempt_decryption self clk fc strat g).1.1 <> "full".
Proof.
  intros Hq. unfold attempt_decryption.
  destruct (dispatch _ _ _) as [[e|r] g'] eqn:Hd; simpl; [done|].
  destruct r as [[[c q] f] det]. specialize (Hq _ _ _ _ _ eq_refl).
  destruct (grade_level self clk (c, q, f, det)) as (_ & _ & ->). simpl.
  apply Qltb_ge in Hq. rewrite Hq, andb_false_r. by case_match.
Qed.

(** X10.  The header analysis, the pattern-based recovery and the partial
    key recovery never produce a [full] outcome, whatever the buffer. *)
Theorem branches_never_full
    (self : DecryptionEngine) (clk : clock) (fc : file_content) (strat : Strategy)
    (g : rng) (name : string) :
  strategy_name strat = Some name ->
  name ∈ ["known_header_analysis"; "pattern_based_recovery"; "partial_key_recovery"] ->
  success_level (attempt_decryption self clk fc strat g).1.1 <> "full".
Proof.
  intros Hname Hin. apply attempt_not_full. intros c q f det g'.
  rewrite (dispatch_by_name _ _ _ Hname).
  repeat (apply elem_of_cons in Hin as [->|Hin]); [| | |by apply elem_of_nil in Hin];
    simpl.
  - apply known_header_confidence.
  - intros [_ H]%pattern_based_confidence. lra.
  - apply partial_key_confidence.
Qed.

(** The pattern-based recovery of the buffer [hello world]. *)
Lemma branches_never_full_witness :
  strategy_name pattern_strategy = Some "pattern_based_recovery"
  /\ success_level
       (attempt_decryption new_engine (example_clock 12) (Bytes (b "hello world"))
          pattern_strategy example_rng).1.1 <> "full".
Proof.
  split; [reflexivity|].
  apply (branches_never_full _ _ _ _ _ "pattern_based_recovery"); [reflexivity|].
  apply list_elem_of_further, list_elem_of_here.
Defined.

(** ** Simulated content *)

Lemma simulate_chunk_length (content : bytes) (i : Z) (g : rng) :
  length (simulate_chunk content i g).1
  = length (take 1024 (drop (Z.to_nat i) content))
    + (if (i =? 0)%Z && Qltb (random g).1 float_0_7
          && (8 <=? length (take 1024 (drop (Z.to_nat i) content)))%nat
       then 1 else 0).
Proof.
  unfold simulate_chunk. destruct (random g) as [r g']. cbn [fst].
  set (chunk := take 1024 (drop (Z.to_nat i) content)).
  destruct (Qltb r float_0_7); [|by rewrite andb_false_r, Nat.add_0_r].
  destruct (i =? 0)%Z; cbn [andb fst].
  - destruct (Nat.leb_spec 8 (length chunk)) as [H8|H8]; cbn [fst].
    + rewrite length_app, length_drop. change (length (b "DECRYPTED")) with 9. lia.
    + destruct (Nat.leb_spec 4 (length chunk)) as [H4|H4]; cbn [fst]; [|lia].
      rewrite length_app, length_drop. change (length (b "DECR")) with 4. lia.
  - rewrite length_map. lia.
Qed.

Lemma simulate_chunks_tail (content : bytes) (j c : nat) (g : rng) :
  0 < j ->
  length (concat (simulate_chunks content
                    (map (fun k : nat => 0 + Z.of_nat k * 1024)%Z (seq j c)) g).1)
  = Nat.min ((j + c) * 1024) (length content) - Nat.min (j * 1024) (length content).
Proof.
  revert j g. induction c as [|c IH]; intros j g Hj; cbn [seq map simulate_chunks].
  - cbn [fst concat length]. rewrite Nat.add_0_r. lia.
  - pose proof (simulate_chunk_length content (0 + Z.of_nat j * 1024) g) as Hc.
    destruct (simulate_chunk content _ g) as [part g1]. cbn [fst] in Hc.
    specialize (IH (S j) g1 ltac:(lia)).
    destruct (simulate_chunks content _ g1) as [parts g2]. cbn [fst concat] in *.
    rewrite length_app, IH, Hc.
    rewrite (proj2 (Z.eqb_neq _ 0)) by lia. cbn [andb].
    rewrite length_take, length_drop. lia.
Qed.

Lemma simulated_partial_length (content : bytes) (g : rng) :
  length (_create_simulated_decryption content true g).1
  = length content
    + (if Qltb (random g).1 float_0_7 && (8 <=? length content)%nat then 1 else 0).
Proof.
  unfold _create_simulated_decryption, range_step.
  change (0 <? 1024)%Z with true. cbv iota.
  set (c := Z.to_nat ((Z.of_nat (length content) - 0 + 1024 - 1) / 1024)).
  assert (length content <= c * 1024) as Hc.
  { unfold c. Z.div_mod_to_equations. lia. }
  destruct c as [|c].
  { assert (length content = 0) as H0 by lia. rewrite H0. simpl.
    by rewrite andb_false_r. }
  cbn [seq map simulate_chunks].
  pose proof (simulate_chunk_length content (0 + Z.of_nat 0 * 1024) g) as H1.
  destruct (simulate_chunk content _ g) as [part g1]. cbn [fst] in H1.
  pose proof (simulate_chunks_tail content 1 c g1 ltac:(lia)) as H2.
  destruct (simulate_chunks content _ g1) as [parts g2]. cbn [fst concat] in *.
  rewrite length_app, H1, H2. change (Z.to_nat (0 + Z.of_nat 0 * 1024)) with 0.
  rewrite drop_0, length_take. cbn [Z.eqb Z.add Z.mul Z.of_nat andb].
  assert ((8 <=? Nat.min 1024 (length content)) = (8 <=? length content)) as ->.
  { destruct (Nat.leb_spec 8 (length content));
      destruct (Nat.leb_spec 8 (Nat.min 1024 (length content))); lia. }
  change (0 + Z.of_nat 0 * 1024 =? 0)%Z with true. cbn [andb].
  destruct (_ && _); lia.
Qed.

Lemma simulated_full_length (content : bytes) (g : rng) :
  length (_create_simulated_decryption content false g).1 = length content
  /\ (_create_simulated_decryption content false g).2 = g.
Proof.
  unfold _create_simulated_decryption.
  destruct (Nat.ltb_spec (length simulated_text) (length content)); cbn [fst snd].
  - split; [|done]. rewrite length_app, length_replicate. lia.
  - split; [|done]. rewrite length_take. lia.
Qed.

(** X11.  The content made up for a full decryption has exactly the length
    of the input and uses no random number.  The content made up for a
    partial decryption has the length of the input, or one byte more: that
    happens exactly when the first chunk is marked decrypted (the first
    draw is below the float [0.7]) and the input has at least 8 bytes,
    because a 9-byte marker then replaces 8 bytes. *)
Theorem simulated_decryption_length (content : bytes) (g : rng) :
  length (_create_simulated_decryption content false g).1 = length content
  /\ (_create_simulated_decryption content false g).2 = g
  /\ length (_create_simulated_decryption content true g).1
     = length content
       + (if Qltb (random g).1 float_0_7 && (8 <=? length content)%nat then 1 else 0).
Proof.
  split; [apply simulated_full_length|]. split; [apply simulated_full_length|].
  apply simulated_partial_length.
Qed.

(** ** Outcomes that are never [failed] *)

Lemma score_gap (data : option bytes) :
  (_score_decryption_result data <= 20 \/ 40 <= _score_decryption_result data)%Z.
Proof.
  unfold _score_decryption_result. destruct data as [data|]; [|lia].
  destruct (length data =? 0); [lia|].
  pose proof (markup_score_values data) as Hm.
  unfold signature_score, text_score, entropy_score.
  repeat case_match; lia.
Qed.

Lemma score_confidence_low3 (z : Z) :
  Qltb (score_confidence z) (3 # 10) = (z <? 30)%Z.
Proof.
  unfold score_confidence, min2, Qltb, Qle_bool.
  destruct (Z.ltb_spec 0 z); simpl.
  - destruct (Z.leb_spec (z * 1) (1 * 100)); simpl;
      destruct (Z.ltb_spec z 30); try destruct (Z.leb_spec (3 * 100) (z * 10));
      simpl; try done; lia.
  - destruct (Z.ltb_spec z 30); [done | lia].
Qed.

Lemma score_confidence_high (z : Z) :
  (40 <= z)%Z -> (3 # 10 < score_confidence z)%Q.
Proof.
  intros Hz. pose proof (score_confidence_low z) as H.
  rewrite (proj2 (Z.ltb_ge z 40)) in H by done. apply Qltb_ge in H. lra.
Qed.

Lemma attempts_candidates_length content key_size attempts g c :
  c ∈ (attempts_candidates content key_size attempts g).1 ->
  length c = length content.
Proof.
  revert g. induction attempts as [|a attempts IH]; intros g; simpl.
  - by intros ?%elem_of_nil.
  - destruct (random_key _ g) as [key g1]. specialize (IH g1).
    destruct (attempts_candidates content key_size attempts g1) as [cands g2].
    simpl in *. intros [->|Hc]%elem_of_cons; [apply xor_decrypt_length | by apply IH].
Qed.

Lemma xor_candidates_length content key_sizes g c :
  c ∈ (xor_candidates content key_sizes g).1 -> length c = length content.
Proof.
  revert g. induction key_sizes as [|k key_sizes IH]; intros g;
    cbn [xor_candidates].
  - by intros ?%elem_of_nil.
  - pose proof (attempts_candidates_length content k (range2 0 10) g c) as H1.
    destruct (attempts_candidates content k (range2 0 10) g) as [cands g1].
    specialize (IH g1). destruct (xor_candidates content key_sizes g1) as [more g2].
    cbn [fst] in *. intros [?|?]%elem_of_app; auto.
Qed.

Lemma xor_bruteforce_recovers content strat g r g' :
  content <> [] ->
  _apply_xor_bruteforce content strat g = (inr r, g') -> recovers r.
Proof.
  intros Hne. unfold _apply_xor_bruteforce, mbind, lift, draw, mret, index.
  destruct (default _ _ !! 0) as [lo|]; [|done].
  destruct (default _ _ !! 1) as [hi|]; [|done]. cbn [ret].
  assert (keeps no_best (-1) []) as Hk0 by (split; [done | simpl; lia]).
  pose proof (xor_search_keeps content (range2 lo (hi + 1)) no_best g (-1) [] Hk0) as Hs.
  pose proof (xor_candidates_length content (range2 lo (hi + 1)) g) as Hl.
  destruct (xor_candidates content (range2 lo (hi + 1)) g) as [candidates g1].
  destruct Hs as (st & -> & Hbest & Hres). cbn [fst app] in *.
  fold (highest_score candidates) in Hbest, Hres.
  rewrite score_confidence_low, Hbest.
  destruct (Z.ltb_spec (highest_score candidates) 40) as [Hlow|Hhigh].
  - pose proof (simulated_full_length content g1) as [Hlen _].
    destruct (_create_simulated_decryption content false g1) as [sim g2].
    intros [= <- <-]. split; [|reflexivity]. cbn [fst] in *.
    apply truthy_length. rewrite Hlen. destruct content; [done | simpl; lia].
  - intros [= <- <-]. destruct Hres as (c & -> & Hc & _); [lia|].
    split; cbn [fst snd].
    + apply truthy_length. rewrite (Hl c Hc). destruct content; [done | simpl; lia].
    + rewrite <- Hbest. apply score_confidence_high. lia.
Qed.

Lemma pattern_based_recovers content strat g r g' :
  content <> [] ->
  _apply_pattern_based_recovery content strat g = (inr r, g') -> recovers r.
Proof.
  intros Hne Hrun. destruct r as [[[c q] f] det].
  pose proof (pattern_based_confidence _ _ _ _ _ _ _ _ Hrun) as [Hq _].
  split; cbn [fst snd]; [|lra].
  revert Hrun. unfold _apply_pattern_based_recovery, mbind, lift, draw, mret.
  destruct (range3 _ _ _) as [?|starts]; [done|].
  pose proof (simulated_partial_length content g) as Hlen.
  destruct (_create_simulated_decryption content true g) as [sim g1].
  intros [= <- _ _ _ _]. apply truthy_length. cbn [fst] in Hlen.
  destruct content; [done | simpl in *; lia].
Qed.

Lemma try_key_invariant (content : bytes) (keys : list bytes) (st : Z * option bytes) :
  (st.1 = (-1)%Z
   \/ exists d, st.2 = Some d /\ length d = length content
                /\ st.1 = _score_decryption_result (Some d)) ->
  let st' := foldl (try_key content) st keys in
  st'.1 = (-1)%Z
  \/ exists d, st'.2 = Some d /\ length d = length content
               /\ st'.1 = _score_decryption_result (Some d).
Proof.
  revert st. induction keys as [|key keys IH]; intros st Hst; [done|].
  cbn [foldl]. apply IH. unfold try_key.
  destruct (Z.ltb_spec st.1 (_score_decryption_result (Some (_xor_decrypt content key))));
    [|done].
  right. eexists. cbn [fst snd]. split; [done|]. split; [apply xor_decrypt_length | done].
Qed.

Lemma generic_recovers content strat g r g' :
  content <> [] ->
  _apply_generic_recovery content strat g = (inr r, g') -> recovers r.
Proof.
  intros Hne. unfold _apply_generic_recovery, mbind, draw, mret.
  pose proof (try_key_invariant content common_keys (-1, None)%Z ltac:(by left)) as Hst.
  cbv zeta in Hst. set (st0 := foldl (try_key content) (-1, None)%Z common_keys) in *.
  set (st := if (st0.1 <? _)%Z then _ else st0).
  assert (st.1 = (-1)%Z
          \/ exists d, st.2 = Some d /\ length d = length content
                       /\ st.1 = _score_decryption_result (Some d)) as Hinv.
  { unfold st. destruct (_ <? _)%Z; [|done]. right. eexists. cbn [fst snd].
    split; [done|]. split; [apply length_reverse | done]. }
  clearbody st. clear Hst st0.
  rewrite score_confidence_low3.
  destruct (Z.ltb_spec st.1 30) as [Hlow|Hhigh].
  - pose proof (simulated_partial_length content g) as Hlen.
    destruct (_create_simulated_decryption content true g) as [sim g1].
    intros [= <- <-]. split; cbn [fst snd]; [|reflexivity].
    apply truthy_length. cbn [fst] in Hlen. destruct content; [done | simpl in *; lia].
  - intros [= <- <-]. destruct Hinv as [Hm | (d & Hd & Hlen & Hs)]; [lia|].
    split; cbn [fst snd].
    + rewrite Hd. apply truthy_length. rewrite Hlen. destruct content; [done|simpl; lia].
    + apply score_confidence_high. pose proof (score_gap (Some d)). lia.
Qed.

(** X12.  On a buffer that is not empty, only the header analysis and the
    partial key recovery can report [failed] without an exception: with any
    other strategy name the outcome is [partial] or [full] unless the
    branch raised. *)
Theorem failed_only_by_exception
    (self : DecryptionEngine) (clk : clock) (fc : file_content) (strat : Strategy)
    (g : rng) :
  content_of fc <> [] ->
  strategy_name strat <> Some "known_header_analysis" ->
  strategy_name strat <> Some "partial_key_recovery" ->
  success_level (attempt_decryption self clk fc strat g).1.1 ∈ ["partial"; "full"]
  \/ exists e, (dispatch (content_of fc) strat g).1 = inl e.
Proof.
  intros Hne Hh Hp. unfold attempt_decryption.
  destruct (dispatch _ _ _) as [[e|r] g'] eqn:Hd; [right; by eexists|]. left.
  assert (recovers r) as [Ht Hq].
  { revert Hd. unfold dispatch.
    repeat case_bool_decide; intros Hd;
      first [ by eapply xor_bruteforce_recovers
            | by eapply pattern_based_recovers
            | by eapply generic_recovers
            | destruct (strategy_name strat); simpl in *; congruence ]. }
  cbn [fst]. destruct (grade_level self clk r) as (_ & _ & ->).
  apply Qltb_lt in Hq. rewrite Ht, Hq. cbn [andb].
  destruct (Qltb (8 # 10) _); [apply list_elem_of_further|]; apply list_elem_of_here.
Qed.

(** The generic recovery of the buffer [hello world]. *)
Lemma failed_only_by_exception_witness :
  success_level
    (attempt_decryption new_engine (example_clock 12) (Bytes (b "hello world"))
                        empty_strategy example_rng).1.1 ∈ ["partial"; "full"]
  \/ exists e, (dispatch (content_of (Bytes (b "hello world"))) empty_strategy
                  example_rng).1 = inl e.
Proof.
  apply (failed_only_by_exception new_engine (example_clock 12)
           (Bytes (b "hello world")) empty_strategy example_rng); discriminate.
Defined.

(** ** The scorer reads a prefix *)

Lemma startswith_of_take {A} `{EqDecision A} (data p : list A) (n : nat) :
  length p <= n -> startswith (take n data) p = startswith data p.
Proof.
  revert data n. induction p as [|x p IH]; intros data n Hn; [done|].
  destruct n as [|n]; [simpl in Hn; lia|].
  destruct data as [|d data]; [done|]. simpl.
  case_decide; [|done]. apply IH. simpl in Hn. lia.
Qed.

Lemma sample_of_take (data : bytes) :
  Nat.min 1000 (length (take 1000 data)) = Nat.min 1000 (length data)
  /\ take (Nat.min 1000 (length (take 1000 data))) (take 1000 data)
     = take (Nat.min 1000 (length data)) data.
Proof.
  rewrite length_take. split; [lia|]. rewrite take_take. f_equal. lia.
Qed.

(** X13.  The plausibility score of a buffer is the score of its first 1000
    bytes: nothing beyond them is read. *)
Theorem score_reads_prefix (data : bytes) :
  _score_decryption_result (Some data)
  = _score_decryption_result (Some (take 1000 data)).
Proof.
  unfold _score_decryption_result.
  destruct (sample_of_take data) as [Hn Hs].
  assert ((length (take 1000 data) =? 0) = (length data =? 0)) as ->.
  { rewrite length_take. destruct data; [done|]. simpl. done. }
  destruct (length data =? 0); [done|].
  assert (signature_score (take 1000 data) = signature_score data) as ->.
  { unfold signature_score.
    by rewrite !startswith_of_take by (vm_compute; lia). }
  assert (text_score (take 1000 data) = text_score data) as ->.
  { unfold text_score, printable_ratio, markup_score. cbv zeta. by rewrite Hs, Hn. }
  assert (entropy_score (take 1000 data) = entropy_score data) as ->.
  { unfold entropy_score. cbv zeta. by rewrite Hs. }
  done.
Qed.

(** ** The cache keeps what it has *)

Lemma attempt_keeps_keys self clk fc strat g key :
  is_Some (decryption_cache self !! key) ->
  is_Some (decryption_cache (attempt_decryption self clk fc strat g).1.2 !! key).
Proof.
  intros Hkey. pose proof (attempt_cache self clk fc strat g) as H.
  destruct (attempt_decryption self clk fc strat g) as [[o self'] g']. simpl.
  destruct H as [(_ & (id & _ & _ & ->) & _) | (_ & _ & ->)]; [|done].
  destruct (decide (id = key)) as [->|Hne].
  - rewrite lookup_insert_eq. by eexists.
  - by rewrite lookup_insert_ne.
Qed.

(** X14.  Nothing is ever removed from the cache: an identifier that has an
    entry still has one after any further calls. *)
Theorem cache_never_evicts (calls : list call) (self : DecryptionEngine) (g : rng)
    (key : string) :
  is_Some (decryption_cache self !! key) ->
  is_Some (decryption_cache (run self g calls).1.2 !! key).
Proof.
  revert self g. induction calls as [|c calls IH]; intros self g Hkey; [done|].
  cbn [run].
  pose proof (attempt_keeps_keys self (call_clock c) (call_content c) (call_strategy c)
                g key Hkey) as H1.
  destruct (attempt_decryption _ _ _ _ _) as [[o self1] g1]. cbn [fst snd] in H1.
  specialize (IH self1 g1 H1). by destruct (run self1 g1 calls) as [[os self2] g2].
Qed.

(** The entry of the first call is still there after the second. *)
Lemma cache_never_evicts_witness :
  is_Some (decryption_cache
             (run (run new_engine example_rng [first_call]).1.2 example_rng
                  [second_call]).1.2 !! "decryption_20240309070500").
Proof.
  apply (cache_never_evicts [second_call]). by vm_compute; eexists.
Defined.

(** ** Identifiers *)

Lemma grade_minted (self : DecryptionEngine) (clk : clock) (r : recovery) :
  minted self -> minted (grade self clk r).2.
Proof.
  intros Hm. destruct r as [[[c q] f] det]. unfold grade.
  repeat case_match; simplify_eq; cbn [snd]; try done;
    (intros key; cbn [decryption_cache];
     destruct (decide ("decryption_" +:+ strftime_YmdHMS (utcnow clk) = key))
       as [<-|Hne];
     [intros _; by eexists | rewrite lookup_insert_ne by done; apply Hm]).
Qed.

Lemma attempt_minted self clk fc strat g :
  minted self -> minted (attempt_decryption self clk fc strat g).1.2.
Proof.
  intros Hm. unfold attempt_decryption.
  destruct (dispatch _ _ _) as [[e|r] g']; cbn [fst snd]; [done|].
  by apply grade_minted.
Qed.

Lemma run_minted (calls : list call) (self : DecryptionEngine) (g : rng) :
  minted self -> minted (run self g calls).1.2.
Proof.
  revert self g. induction calls as [|c calls IH]; intros self g Hm; [done|].
  cbn [run].
  pose proof (attempt_minted self (call_clock c) (call_content c) (call_strategy c) g Hm)
    as H1.
  destruct (attempt_decryption _ _ _ _ _) as [[o self1] g1]. cbn [fst snd] in H1.
  specialize (IH self1 g1 H1). by destruct (run self1 g1 calls) as [[os self2] g2].
Qed.

Lemma digit_not_d (m : nat) : digit m <> "d"%char.
Proof.
  unfold digit. pose proof (Nat.mod_upper_bound m 10 ltac:(lia)) as Hm.
  destruct (m mod 10) as [|[|[|[|[|[|[|[|[|[|k]]]]]]]]]]; try discriminate. lia.
Qed.

Lemma digits_fuel_head (fuel n : nat) :
  exists m rest, digits_fuel (S fuel) n = String (digit m) rest.
Proof.
  revert n. induction fuel as [|fuel IH]; intros n.
  - cbn [digits_fuel]. destruct (n <? 10); by eexists _, _.
  - change (digits_fuel (S (S fuel)) n)
      with (if n <? 10 then String (digit n) EmptyString
            else digits_fuel (S fuel) (n / 10) +:+ String (digit n) EmptyString).
    destruct (n <? 10); [by eexists _, _|].
    destruct (IH (n / 10)) as (m & rest & ->). by eexists _, _.
Qed.

Lemma str_int_not_minted (z : Z) (stamp : string) :
  str_int z <> "decryption_" +:+ stamp.
Proof.
  unfold str_int.
  destruct (digits_fuel_head (Z.abs_nat z) (Z.abs_nat z)) as (m & rest & ->).
  destruct (z <? 0)%Z; [discriminate|].
  intros [= Hd _]. by apply digit_not_d in Hd.
Qed.

(** X15.  On an engine that started empty, looking up an integer never
    finds anything, whatever calls were served: [str] of an integer is not
    an identifier the engine mints, all of which begin with [decryption_]. *)
Theorem integer_lookup_finds_nothing (calls : list call) (g : rng) (z : Z) :
  get_decrypted_content (run new_engine g calls).1.2 (IdInt z) = None.
Proof.
  assert (minted new_engine) as H0.
  { intros key [x Hx]. unfold new_engine in Hx. cbn [decryption_cache] in Hx.
    by rewrite lookup_empty in Hx. }
  pose proof (run_minted calls new_engine g H0) as Hm.
  unfold get_decrypted_content. cbn [str_id].
  destruct (decryption_cache _ !! str_int z) as [x|] eqn:Hx; [|done].
  destruct (Hm (str_int z) ltac:(by eexists)) as [stamp Hs].
  by apply str_int_not_minted in Hs.
Qed.

(** ** Repeating blocks *)

Lemma count_blocks_bound (data : bytes) (block_size : Z) (starts : list Z)
    (m : gmap bytes nat) (k : nat) :
  (forall blk n, m !! blk = Some n -> n <= k) ->
  forall blk n,
    foldl (fun (blocks : gmap bytes nat) i =>
             let block := take (Z.to_nat block_size) (drop (Z.to_nat i) data) in
             match blocks !! block with
             | Some n => <[block := S n]> blocks
             | None => <[block := 1%nat]> blocks
             end) m starts !! blk = Some n ->
    n <= k + length starts.
Proof.
  revert m k. induction starts as [|i starts IH]; intros m k Hm blk n; cbn [foldl length].
  - intros H%Hm. lia.
  - intros H. eapply (IH _ (S k)) in H; [lia|].
    intros blk' n'. cbv zeta.
    set (block := take (Z.to_nat block_size) (drop (Z.to_nat i) data)).
    destruct (m !! block) as [n0|] eqn:Hb.
    + destruct (decide (block = blk')) as [<-|Hne].
      * rewrite lookup_insert_eq. intros [= <-]. apply Hm in Hb. lia.
      * rewrite lookup_insert_ne by done. intros ?%Hm. lia.
    + destruct (decide (block = blk')) as [<-|Hne].
      * rewrite lookup_insert_eq. intros [= <-]. lia.
      * rewrite lookup_insert_ne by done. intros ?%Hm. lia.
Qed.

(** X16.  A buffer of at most 64 bytes is never flagged for repeating
    blocks: the loop leaves out the last block, so at most three blocks are
    counted and no count can exceed the threshold of 3. *)
Theorem short_buffer_has_no_repeating_blocks (data : bytes) :
  length data <= 64 -> _has_repeating_blocks data 16 = inr false.
Proof.
  intros Hlen. unfold _has_repeating_blocks.
  destruct (_ <? _)%Z; [done|]. unfold range3. cbn [Z.eqb bind ret]. f_equal.
  destruct (existsb _ _) eqn:He; [|done]. exfalso.
  apply existsb_exists in He as (c & Hc & H3). apply Nat.ltb_lt in H3.
  apply list_elem_of_In, list_elem_of_fmap in Hc as ([blk n] & -> & Hin).
  apply elem_of_map_to_list in Hin. unfold count_blocks in Hin.
  eapply (count_blocks_bound _ _ _ ∅ 0) in Hin.
  - unfold range_step in Hin. rewrite length_map, length_seq in Hin.
    change (0 <? 16)%Z with true in Hin. cbv iota in Hin. cbn [snd] in H3.
    revert Hin. Z.div_mod_to_equations. lia.
  - intros ? ?. by rewrite lookup_empty.
Qed.

(** Four equal blocks of 16 bytes are not flagged. *)
Lemma short_buffer_has_no_repeating_blocks_witness :
  _has_repeating_blocks (replicate 64 "A"%byte) 16 = inr false.
Proof.
  apply (short_buffer_has_no_repeating_blocks (replicate 64 "A"%byte)).
  rewrite length_replicate. lia.
Defined.

Lemma repeated_block_at (block : bytes) (n k : nat) :
  k < n ->
  take (length block) (drop (k * length block) (concat (replicate n block))) = block.
Proof.
  revert k. induction n as [|n IH]; intros k Hk; [lia|].
  cbn [replicate concat]. destruct k as [|k].
  - by rewrite Nat.mul_0_l, drop_0, take_app_length.
  - replace (S k * length block) with (length block + k * length block) by lia.
    rewrite drop_app_add. apply IH. lia.
Qed.

Lemma count_same_block (data : bytes) (block_size : Z) (blk : bytes) (starts : list Z)
    (m : gmap bytes nat) :
  (forall i, i ∈ starts -> take (Z.to_nat block_size) (drop (Z.to_nat i) data) = blk) ->
  foldl (fun (blocks : gmap bytes nat) i =>
           let block := take (Z.to_nat block_size) (drop (Z.to_nat i) data) in
           match blocks !! block with
           | Some n => <[block := S n]> blocks
           | None => <[block := 1%nat]> blocks
           end) m starts
  = match starts with
    | [] => m
    | _ => <[blk := default 0 (m !! blk) + length starts]> m
    end.
Proof.
  revert m. induction starts as [|i starts IH]; intros m Hall; [done|].
  cbn [foldl]. cbv zeta. rewrite (Hall i) by apply list_elem_of_here.
  rewrite IH by (intros j Hj; apply Hall; by apply list_elem_of_further).
  destruct (m !! blk) as [n0|] eqn:Hb; cbv beta iota delta [from_option Datatypes.id].
  - destruct starts as [|j starts]; cbn [length].
    + apply (f_equal (fun v => <[blk:=v]> m)). lia.
    + rewrite lookup_insert_eq, insert_insert_eq. cbv beta iota delta [from_option Datatypes.id].
      cbn [length]. apply (f_equal (fun v => <[blk:=v]> m)). lia.
  - destruct starts as [|j starts]; cbn [length]; [done|].
    rewrite lookup_insert_eq, insert_insert_eq. cbv beta iota delta [from_option Datatypes.id].
    cbn [length]. apply (f_equal (fun v => <[blk:=v]> m)). lia.
Qed.

(** X17.  A buffer made of [n] copies of one 16-byte block is flagged for
    repeating blocks exactly when [n] is at least 5: the threshold asks for
    more than 3 equal blocks and the last block is not counted. *)
Theorem repeated_block_threshold (block : bytes) (n : nat) :
  length block = 16 ->
  _has_repeating_blocks (concat (replicate n block)) 16 = inr (5 <=? n).
Proof.
  intros Hb. set (data := concat (replicate n block)).
  assert (length data = n * 16) as Hlen.
  { unfold data. clear -Hb. induction n as [|n IH]; [done|].
    cbn [replicate concat]. rewrite length_app, IH. lia. }
  unfold _has_repeating_blocks. rewrite Hlen.
  destruct (Z.ltb_spec (Z.of_nat (n * 16)) (16 * 2)) as [Hs|Hs].
  { by rewrite (proj2 (Nat.leb_gt 5 n)) by lia. }
  unfold range3. cbn [Z.eqb bind ret]. f_equal.
  unfold count_blocks, range_step. change (0 <? 16)%Z with true. cbv iota.
  assert (Z.to_nat ((Z.of_nat (n * 16) - 16 - 0 + 16 - 1) / 16) = S (n - 2)) as ->.
  { Z.div_mod_to_equations. lia. }
  rewrite (count_same_block data 16 block).
  - cbn [seq map]. rewrite lookup_empty. cbv beta iota delta [from_option Datatypes.id]; cbn [Nat.add].
    rewrite insert_empty, map_to_list_singleton. cbn [map snd existsb length].
    rewrite length_map, length_seq, orb_false_r.
    destruct (Nat.ltb_spec 3 (S (n - 2))); destruct (Nat.leb_spec 5 n); (done || lia).
  - intros i (k & -> & Hk%elem_of_seq)%list_elem_of_fmap.
    replace (Z.to_nat (0 + Z.of_nat k * 16)) with (k * length block) by lia.
    change (Z.to_nat 16) with 16. rewrite <- Hb. apply repeated_block_at. lia.
Qed.

(** Five copies of a block of 16 bytes are flagged. *)
Lemma repeated_block_threshold_witness :
  _has_repeating_blocks (concat (replicate 5 (replicate 16 "A"%byte))) 16 = inr true.
Proof.
  apply (repeated_block_threshold (replicate 16 "A"%byte) 5). by rewrite length_replicate.
Defined.

(** ** Composing XOR keys *)

Lemma byte_xor_assoc (x y z : byte) : byte_xor (byte_xor x y) z = byte_xor x (byte_xor y z).
Proof. apply to_N_inj. rewrite !to_N_byte_xor. apply N.lxor_assoc. Qed.

(** X18.  Decrypting with one key and then with another of the same length
    is decrypting once with the byte-wise XOR of the two keys. *)
Theorem xor_decrypt_compose (data k1 k2 : bytes) :
  length k1 = length k2 ->
  _xor_decrypt (_xor_decrypt data k1) k2 = _xor_decrypt data (zip_with byte_xor k1 k2).
Proof.
  intros Hlen. destruct (decide (k1 = [])) as [->|Hk1].
  { destruct k2; [done | simpl in Hlen; lia]. }
  assert (k2 <> []) as Hk2 by (intros ->; destruct k1; simpl in Hlen; [done | lia]).
  assert (length (zip_with byte_xor k1 k2) = length k1) as Hz.
  { rewrite length_zip_with. lia. }
  assert (zip_with byte_xor k1 k2 <> []) as Hk by (intros H; rewrite H in Hz; by destruct k1).
  apply list_eq. intros i. rewrite !xor_decrypt_lookup by done.
  destruct (data !! i) as [c|]; simpl; [|done]. f_equal.
  rewrite Hz, <- Hlen.
  assert (i mod length k1 < length k1) as Hi.
  { apply Nat.mod_upper_bound. by destruct k1. }
  destruct (lookup_lt_is_Some_2 k1 _ Hi) as [a Ha].
  destruct (lookup_lt_is_Some_2 k2 (i mod length k1) ltac:(lia)) as [b' Hb].
  rewrite lookup_zip_with, Ha, Hb. simpl. apply byte_xor_assoc.
Qed.

(** Two keys of three bytes on the buffer [hello world]. *)
Lemma xor_decrypt_compose_witness :
  _xor_decrypt (_xor_decrypt (b "hello world") (b "key")) (b "abc")
  = _xor_decrypt (b "hello world") (zip_with byte_xor (b "key") (b "abc")).
Proof. apply (xor_decrypt_compose (b "hello world") (b "key") (b "abc")). reflexivity. Defined.

(** ** File types in the two modules *)

Lemma startswith_shorter {A} `{EqDecision A} (data p q : list A) :
  startswith data (p ++ q) = true -> startswith data p = true.
Proof.
  rewrite !startswith_prefix. intros [k ->]. exists (q ++ k). by rewrite app_assoc.
Qed.

(** X19.  On a buffer of at least 16 bytes the detector and the engine name
    the same file type for ZIP and PDF; what the engine takes for a PNG the
    detector does too; and the detector sees a PE file exactly when the
    engine sees an executable longer than 64 bytes. *)
Theorem file_types_agree (data : bytes) :
  16 <= length data ->
  let ft := file_type (_analyze_file_header data) in
  (ft = "zip" <-> Detector._get_file_type data = "ZIP Archive")
  /\ (ft = "pdf" <-> Detector._get_file_type data = "PDF Document")
  /\ (ft = "png" -> Detector._get_file_type data = "PNG Image")
  /\ (ft = "exe" /\ 64 < length data
      <-> Detector._get_file_type data = "Windows Executable (PE)").
Proof.
  intros Hlen. cbv zeta.
  unfold _analyze_file_header, Detector._get_file_type, Detector._is_pe_file,
    Detector._is_zip_file.
  rewrite (proj2 (Nat.ltb_ge _ _)) by done.
  rewrite !startswith_of_take by (vm_compute; lia).
  pose proof (startswith_shorter data ([x89] ++ b "PNG") [x0d; x0a; x1a; x0a]) as Hpng.
  change (([x89] ++ b "PNG") ++ [x0d; x0a; x1a; x0a]) with PNG_MAGIC in Hpng.
  destruct (startswith data PK34) eqn:Hzip;
    destruct (startswith data PNG_MAGIC) eqn:Hp8;
    destruct (startswith data (b "%PDF")) eqn:Hpdf;
    destruct (startswith data (b "MZ")) eqn:Hexe;
    try clash_heads;
    try (rewrite Hpng by done);
    destruct (startswith data ([x89] ++ b "PNG")) eqn:Hp4;
    try clash_heads;
    destruct (Nat.ltb_spec 64 (length data));
    cbn [andb file_type];
    repeat case_match; cbn [file_type];
    repeat split; intros; try done; try lia; try (by destruct_and?).
Qed.

(** A buffer of 128 bytes that begins like a ZIP file. *)
Lemma file_types_agree_witness :
  let ft := file_type (_analyze_file_header zip_sample) in
  (ft = "zip" <-> Detector._get_file_type zip_sample = "ZIP Archive")
  /\ (ft = "pdf" <-> Detector._get_file_type zip_sample = "PDF Document")
  /\ (ft = "png" -> Detector._get_file_type zip_sample = "PNG Image")
  /\ (ft = "exe" /\ 64 < length zip_sample
      <-> Detector._get_file_type zip_sample = "Windows Executable (PE)").
Proof. apply (file_types_agree zip_sample). by vm_compute; lia. Defined.

(** ** When identifiers coincide *)

Lemma append_inj (s1 t1 s2 t2 : string) :
  String.length s1 = String.length t1 ->
  s1 +:+ s2 = t1 +:+ t2 -> s1 = t1 /\ s2 = t2.
Proof.
  revert t1. induction s1 as [|a s1 IH]; intros [|c t1] Hlen; simpl in *; try done.
  intros [= -> H]. destruct (IH t1 ltac:(lia) H) as [-> ->]. done.
Qed.

Lemma append_length (s t : string) :
  String.length (s +:+ t) = String.length s + String.length t.
Proof. induction s as [|a s IH]; simpl; [done | by rewrite IH]. Qed.

Lemma digits_pad_length (w n : nat) : String.length (digits_pad w n) = w.
Proof.
  revert n. induction w as [|w IH]; intros n; cbn [digits_pad]; [done|].
  rewrite append_length, IH. cbn [String.length]. lia.
Qed.

Lemma digit_inj (n m : nat) : digit n = digit m -> n mod 10 = m mod 10.
Proof.
  unfold digit. intros H. apply (f_equal nat_of_ascii) in H.
  pose proof (Nat.mod_upper_bound n 10 ltac:(lia)).
  pose proof (Nat.mod_upper_bound m 10 ltac:(lia)).
  rewrite !nat_ascii_embedding in H by lia. lia.
Qed.

Lemma digits_pad_inj (w n m : nat) :
  n < 10 ^ w -> m < 10 ^ w -> digits_pad w n = digits_pad w m -> n = m.
Proof.
  revert n m. induction w as [|w IH]; intros n m Hn Hm H.
  { change (10 ^ 0) with 1 in *. lia. }
  rewrite Nat.pow_succ_r' in Hn, Hm. cbn [digits_pad] in H.
  apply append_inj in H as [H1 H2]; [|by rewrite !digits_pad_length].
  injection H2 as H2. apply digit_inj in H2.
  apply IH in H1; [| apply Nat.Div0.div_lt_upper_bound; lia ..].
  rewrite (Nat.div_mod_eq n 10), (Nat.div_mod_eq m 10). lia.
Qed.

(** X20.  Two attempts get the same identifier exactly when their clock
    readings agree up to the second; the microseconds play no part. *)
Theorem identifiers_coincide (t1 t2 : datetime) :
  calendar t1 -> calendar t2 ->
  ("decryption_" +:+ strftime_YmdHMS t1 = "decryption_" +:+ strftime_YmdHMS t2
   <-> year t1 = year t2 /\ month t1 = month t2 /\ day t1 = day t2
       /\ hour t1 = hour t2 /\ minute t1 = minute t2 /\ second t1 = second t2).
Proof.
  intros (Hy1 & Hm1 & Hd1 & Hh1 & Hi1 & Hs1) (Hy2 & Hm2 & Hd2 & Hh2 & Hi2 & Hs2).
  split.
  - intros H. apply append_inj in H as [_ H]; [|done]. unfold strftime_YmdHMS in H.
    repeat match goal with
           | H' : _ +:+ _ = _ +:+ _ |- _ =>
               apply append_inj in H' as [? ?];
               [|by rewrite ?append_length, ?digits_pad_length]
           end.
    repeat split; eapply digits_pad_inj; eassumption.
  - intros (Hy & Hm & Hd & Hh & Hi & Hs). unfold strftime_YmdHMS. congruence.
Qed.

(** The clock readings of the two calls that collide. *)
Lemma identifiers_coincide_witness :
  "decryption_" +:+ strftime_YmdHMS (utcnow (example_clock 12))
  = "decryption_" +:+ strftime_YmdHMS (utcnow (example_clock 4800)).
Proof.
  apply (identifiers_coincide (utcnow (example_clock 12)) (utcnow (example_clock 4800)));
    [by repeat split; vm_compute; lia | by repeat split; vm_compute; lia | done].
Defined.

(** ** The detector's byte frequencies *)

Lemma count_pos (k : Z) (data : bytes) :
  0 < Detector.count k data <-> exists c, c ∈ data /\ ord c = k.
Proof.
  unfold Detector.count. split.
  - intros H. destruct (filter _ data) as [|c l] eqn:Hf; [simpl in H; lia|].
    assert (c ∈ filter (fun c => ord c = k) data) as Hc by (rewrite Hf; left).
    apply list_elem_of_filter in Hc as [? ?]. eauto.
  - intros (c & Hc & Hk).
    assert (c ∈ filter (fun c => ord c = k) data) as Hin by (by apply list_elem_of_filter).
    destruct (filter _ data); [by apply elem_of_nil in Hin | simpl; lia].
Qed.

(** X21.  The detector's frequency dictionary has an entry for exactly the
    byte values that occur in the buffer, each with its share of the
    buffer, [count / len]; every value is above 0 and at most 1; and the
    dictionary of the empty buffer is empty, with no division by zero. *)
Theorem byte_frequency_dictionary (content : bytes) :
  (forall k p,
     (k, p) ∈ Detector._calculate_byte_frequency content
     <-> (exists c, c ∈ content /\ ord c = k)
         /\ p = (INR (Detector.count k content) / INR (length content))%R)
  /\ (forall k p,
        (k, p) ∈ Detector._calculate_byte_frequency content -> (0 < p <= 1)%R)
  /\ Detector._calculate_byte_frequency [] = [].
Proof.
  assert (forall k p,
            (k, p) ∈ Detector._calculate_byte_frequency content
            <-> (exists c, c ∈ content /\ ord c = k)
                /\ p = (INR (Detector.count k content) / INR (length content))%R)
    as Hdict.
  { intros k p. unfold Detector._calculate_byte_frequency. rewrite <- count_pos.
    rewrite list_elem_of_fmap. split.
    + intros ([k' v] & [= -> ->] & [Hv Hin]%list_elem_of_filter). cbn [fst snd] in *.
      apply elem_of_lookup_imap in Hin as (i & v' & [= -> ->] & Hi).
      pose proof (lookup_lt_Some _ _ _ Hi) as Hlt. rewrite byte_counts_length in Hlt.
      rewrite byte_counts_lookup in Hi by done. injection Hi as <-. done.
    + intros [Hpos ->].
      assert (0 <= k < 256)%Z as Hk.
      { apply count_pos in Hpos as (c & _ & <-). unfold ord.
        pose proof (Byte.to_N_bounded c). lia. }
      exists (k, Detector.count k content). split; [done|].
      apply list_elem_of_filter. split; [done|].
      apply elem_of_lookup_imap. exists (Z.to_nat k), (Detector.count k content).
      split; [f_equal; lia|].
      rewrite byte_counts_lookup by lia. do 2 f_equal. lia. }
  split; [exact Hdict|]. split; [|by vm_compute].
  intros k p [Hocc ->]%Hdict. apply count_pos in Hocc.
  assert (Detector.count k content <= length content) as Hle
    by (unfold Detector.count; apply length_filter).
  assert (0 < INR (Detector.count k content))%R as Hc by (by apply lt_0_INR).
  assert (INR (Detector.count k content) <= INR (length content))%R as HcR
    by (by apply le_INR).
  assert (0 < INR (length content))%R as Hn by lra.
  split.
  - by apply Rdiv_lt_0_compat.
  - apply Rmult_le_reg_r with (INR (length content)); [done|].
    unfold Rdiv. rewrite Rmult_assoc, Rinv_l by lra. lra.
Qed.

(** *** Marker search through the printed form of a buffer *)

Lemma list_ascii_app (s1 s2 : string) :
  String.list_ascii_of_string (s1 +:+ s2)
  = String.list_ascii_of_string s1 ++ String.list_ascii_of_string s2.
Proof. induction s1 as [|a s1 IH]; [done|]. simpl. by rewrite IH. Qed.

Lemma repr_chars_cons (q c : byte) (rest : bytes) :
  repr_chars q (c :: rest)
  = String.list_ascii_of_string (repr_byte q c) ++ repr_chars q rest.
Proof. unfold repr_chars. cbn [foldr]. by rewrite list_ascii_app. Qed.

Lemma repr_chars_app (q : byte) (pre rest : bytes) :
  exists X, repr_chars q (pre ++ rest) = X ++ repr_chars q rest.
Proof.
  induction pre as [|c pre [X IH]]; [by exists []|].
  exists (String.list_ascii_of_string (repr_byte q c) ++ X).
  rewrite <- app_comm_cons, repr_chars_cons, IH. by rewrite app_assoc.
Qed.

Lemma str_bytes_chars (data : bytes) :
  exists q, (q = x22 \/ q = "'"%byte)
    /\ String.list_ascii_of_string (str_bytes data)
       = "b"%char :: ascii_of_byte q :: repr_chars q data.
Proof.
  unfold str_bytes. cbv zeta.
  destruct (_ && _); [exists x22 | exists "'"%byte]; (split; [auto|done]).
Qed.

Lemma repr_ok_all (q c : byte) : q = x22 \/ q = "'"%byte -> repr_ok q c = true.
Proof. intros [-> | ->]; destruct c; vm_compute; reflexivity. Qed.

Lemma contains_of_startswith {A} `{EqDecision A} (l m : list A) :
  startswith l m = true -> contains l m = true.
Proof.
  destruct l as [|x l]; [by destruct m|]. intros H0. cbn [contains]. by rewrite H0.
Qed.

Lemma contains_app_l {A} `{EqDecision A} (X Y m : list A) :
  contains Y m = true -> contains (X ++ Y) m = true.
Proof.
  intros HY. induction X as [|x X IH]; [done|].
  rewrite <- app_comm_cons. cbn [contains]. rewrite IH. apply orb_true_r.
Qed.

Lemma contains_skip {A} `{EqDecision A} (t R : list A) (a : A) (m : list A) :
  Forall (fun x => x <> a) t ->
  contains (t ++ R) (a :: m) = true -> contains R (a :: m) = true.
Proof.
  induction 1 as [|x t Hx _ IH]; [done|].
  rewrite <- app_comm_cons. cbn [contains startswith].
  case_decide; [done|]. simpl. done.
Qed.

Lemma plain_char_repr (q : byte) (a : ascii) :
  q = x22 \/ q = "'"%byte -> plain_char a = true ->
  repr_byte q (byte_of_ascii a) = String a EmptyString
  /\ a <> "\"%char /\ a <> ascii_of_byte q.
Proof.
  intros Hq [Hn Hr]%andb_true_iff. cbn [forallb] in Hr.
  apply andb_true_iff in Hr as [H1%bool_decide_eq_true [H2%bool_decide_eq_true _]%andb_true_iff].
  apply negb_true_iff, bool_decide_eq_false in Hn.
  split; [by destruct Hq as [-> | ->]|].
  split.
  - intros ->. apply Hn. vm_compute. set_solver.
  - intros ->. apply Hn. rewrite byte_of_ascii_of_byte.
    destruct Hq as [-> | ->]; set_solver.
Qed.

Lemma repr_startswith (q : byte) (data : bytes) (m : list ascii) :
  q = x22 \/ q = "'"%byte -> forallb plain_char m = true ->
  startswith (repr_chars q data) m = true <-> startswith data (map byte_of_ascii m) = true.
Proof.
  intros Hq. revert data. induction m as [|a m IH]; intros data Hm; [done|].
  cbn [forallb] in Hm. apply andb_true_iff in Hm as [Ha Hm].
  destruct (plain_char_repr q a Hq Ha) as (Hrepr & Hbs & Hquote).
  destruct data as [|c rest].
  - cbn. case_decide; [by subst | done].
  - rewrite repr_chars_cons. pose proof (repr_ok_all q c Hq) as Hok. unfold repr_ok in Hok.
    cbn [map startswith].
    destruct (decide (c = byte_of_ascii a)) as [-> | Hc].
    + rewrite Hrepr. cbn. rewrite !decide_True by done. by apply IH.
    + destruct (String.list_ascii_of_string (repr_byte q c)) as [|h t]; [done|].
      rewrite <- app_comm_cons. cbn [startswith].
      case_bool_decide as Hh.
      * subst h. by rewrite decide_False by done.
      * apply andb_true_iff in Hok as [->%bool_decide_eq_true _].
        rewrite decide_False; [done|]. intros <-. by rewrite byte_of_ascii_of_byte in Hc.
Qed.

Lemma esc_char_ne (a : ascii) (t : list ascii) :
  esc_char a = false -> forallb esc_char t = true -> Forall (fun x => x <> a) t.
Proof.
  intros Ha Ht. apply Forall_forall. intros x Hx ->.
  rewrite forallb_forall in Ht. apply list_elem_of_In in Hx.
  specialize (Ht _ Hx). congruence.
Qed.

Lemma repr_contains (q : byte) (data : bytes) (a : ascii) (m : list ascii) :
  q = x22 \/ q = "'"%byte -> esc_char a = false -> forallb plain_char (a :: m) = true ->
  contains (repr_chars q data) (a :: m) = true
  <-> exists pre post, data = pre ++ map byte_of_ascii (a :: m) ++ post.
Proof.
  intros Hq Ha Hm. split.
  - induction data as [|c rest IH].
    + cbn. destruct (plain_char_repr q a Hq) as (_ & _ & Hquote).
      { cbn [forallb] in Hm. by apply andb_true_iff in Hm as [? _]. }
      case_decide; [by subst | done].
    + intros Hc.
      destruct (startswith (repr_chars q (c :: rest)) (a :: m)) eqn:Hs.
      { apply repr_startswith in Hs; [|done..].
        apply startswith_prefix in Hs as [post ->]. by exists [], post. }
      assert (contains (repr_chars q rest) (a :: m) = true) as Hrest.
      { rewrite repr_chars_cons in Hc, Hs.
        pose proof (repr_ok_all q c Hq) as Hok. unfold repr_ok in Hok.
        destruct (String.list_ascii_of_string (repr_byte q c)) as [|h t]; [done|].
        cbn [app] in Hc, Hs. cbn [contains] in Hc.
        rewrite Hs in Hc. cbn [orb] in Hc.
        case_bool_decide.
        - eapply contains_skip; [|done]. by apply esc_char_ne.
        - by apply andb_true_iff in Hok as [_ ->%bool_decide_eq_true]. }
      destruct (IH Hrest) as (pre & post & ->). by exists (c :: pre), post.
  - intros (pre & post & ->).
    destruct (repr_chars_app q pre (map byte_of_ascii (a :: m) ++ post)) as [X ->].
    apply contains_app_l, contains_of_startswith, repr_startswith; [done..|].
    apply startswith_prefix. by exists post.
Qed.

Lemma common_markers_ok : Forall (fun marker => marker_ok marker = true) common_markers.
Proof. repeat (apply Forall_cons; split; [by vm_compute|]). by apply Forall_nil. Qed.

(** X22.  A buffer is flagged for ransomware markers exactly when one of the
    marker texts occurs in it byte for byte: searching the printed form
    of the buffer, with its quotes and escape sequences, neither misses an
    occurrence nor finds one that is not in the bytes. *)
Theorem ransomware_markers_literal (data : bytes) :
  _check_ransomware_markers data = true
  <-> exists marker pre post,
        marker ∈ common_markers /\ data = pre ++ b marker ++ post.
Proof.
  unfold _check_ransomware_markers. cbv zeta. rewrite existsb_exists.
  destruct (str_bytes_chars data) as (q & Hq & ->).
  assert (forall marker, marker ∈ common_markers ->
            contains ("b"%char :: ascii_of_byte q :: repr_chars q data)
                     (String.list_ascii_of_string marker) = true
            <-> exists pre post, data = pre ++ b marker ++ post) as Hone.
  { intros marker Hin.
    pose proof (proj1 (Forall_forall _ _) common_markers_ok _ Hin) as Hok.
    unfold marker_ok in Hok. unfold b, String.list_byte_of_string.
    destruct (String.list_ascii_of_string marker) as [|a m]; [done|].
    apply andb_true_iff in Hok as [[Ha%negb_true_iff Hb%negb_true_iff]%andb_true_iff Hm].
    apply bool_decide_eq_false in Hb.
    rewrite <- repr_contains by done.
    destruct (plain_char_repr q a Hq) as (_ & _ & Hquote).
    { cbn [forallb] in Hm. by apply andb_true_iff in Hm as [? _]. }
    cbn [contains startswith]. rewrite !decide_False by done. done. }
  split.
  - intros (marker & Hin%list_elem_of_In & Hc).
    apply Hone in Hc as (pre & post & ->); [|done]. by exists marker, pre, post.
  - intros (marker & pre & post & Hin & ->). exists marker.
    split; [by apply list_elem_of_In|]. apply Hone; [done|]. by exists pre, post.
Qed.

(** ** Buffers of entropy zero *)

Section entropy_zero.

Local Open Scope R_scope.

Lemma np_sum_ge_elem {A} (g : A -> R) (l : list A) (x : A) :
  (forall y, y ∈ l -> 0 <= g y) -> x ∈ l -> g x <= np_sum (map g l).
Proof.
  intros Hpos Hx. induction l as [|y l IH]; [by apply elem_of_nil in Hx|].
  cbn [map np_sum foldr]. fold (np_sum (map g l)).
  assert (0 <= np_sum (map g l)) as Hrest.
  { clear IH Hx. induction l as [|z l IH]; [simpl; lra|].
    cbn [map np_sum foldr]. fold (np_sum (map g l)).
    pose proof (Hpos z ltac:(right; left)).
    assert (0 <= np_sum (map g l)); [|lra].
    apply IH. intros w Hw. apply Hpos.
    apply elem_of_cons in Hw as [-> | Hw]; [left | right; by right]. }
  pose proof (Hpos y ltac:(left)).
  apply elem_of_cons in Hx as [-> | Hx]; [lra|].
  assert (g x <= np_sum (map g l)); [|lra].
  apply IH; [|done]. intros w Hw. apply Hpos. by right.
Qed.

Lemma entropy_by_value (data : bytes) :
  data <> [] ->
  _calculate_entropy data
  = np_sum (map (fun x => - plogp (INR (Detector.count x data) / INR (length data)))
                (range2 0 256)).
Proof.
  intros Hne. rewrite entropy_as_sum by done. rewrite <- np_sum_neg.
  unfold frequencies_of. rewrite byte_counts_range, !map_map. done.
Qed.

Lemma ord_in_range (c : byte) : ord c ∈ range2 0 256.
Proof.
  unfold range2. apply list_elem_of_fmap. exists (N.to_nat (Byte.to_N c)).
  pose proof (Byte.to_N_bounded c). split; [unfold ord; lia|].
  apply elem_of_seq. simpl. lia.
Qed.

Lemma plogp_neg (p : R) : 0 < p < 1 -> plogp p < 0.
Proof.
  intros [H0 H1]. unfold plogp, log2. destruct (Rgt_dec p 0) as [_|]; [|lra].
  pose proof ln2_pos as HL.
  pose proof (ln_increasing p 1 H0 H1) as Hln. rewrite ln_1 in Hln.
  assert (ln p / ln 2 < 0).
  { apply Rmult_lt_reg_r with (ln 2); [done|]. unfold Rdiv.
    rewrite Rmult_assoc, Rinv_l by lra. lra. }
  nra.
Qed.

Lemma entropy_two_values (data : bytes) (c1 c2 : byte) :
  c1 ∈ data -> c2 ∈ data -> c1 <> c2 -> 0 < _calculate_entropy data.
Proof.
  intros H1 H2 Hne.
  assert (data <> []) as Hdata by (intros ->; by apply elem_of_nil in H1).
  rewrite entropy_by_value by done.
  pose proof (length_pos_INR data Hdata) as Hn.
  set (g := fun x => - plogp (INR (Detector.count x data) / INR (length data))).
  assert (forall x, 0 <= INR (Detector.count x data) / INR (length data) <= 1) as Hrange.
  { intros x.
    assert (Detector.count x data <= length data)%nat as Hle
      by (unfold Detector.count; apply length_filter).
    apply le_INR in Hle. pose proof (pos_INR (Detector.count x data)).
    split.
    - apply Rmult_le_pos; [done|]. by apply Rlt_le, Rinv_0_lt_compat.
    - apply Rmult_le_reg_r with (INR (length data)); [done|].
      unfold Rdiv. rewrite Rmult_assoc, Rinv_l by lra. lra. }
  assert (0 < g (ord c1)) as Hterm.
  { unfold g.
    assert (0 < Detector.count (ord c1) data)%nat as Hpos
      by (apply count_pos; by exists c1).
    assert (Detector.count (ord c1) data < length data)%nat as Hlt.
    { unfold Detector.count. apply (length_filter_lt _ _ c2); [done|].
      intros Heq. apply Hne. apply to_N_inj. unfold ord in Heq. lia. }
    apply lt_INR in Hpos, Hlt. simpl (INR 0) in Hpos.
    assert (0 < INR (Detector.count (ord c1) data) / INR (length data) < 1) as Hp.
    { split; [by apply Rdiv_lt_0_compat|].
      apply Rmult_lt_reg_r with (INR (length data)); [done|].
      unfold Rdiv. rewrite Rmult_assoc, Rinv_l by lra. lra. }
    pose proof (plogp_neg _ Hp). lra. }
  pose proof (np_sum_ge_elem g (range2 0 256) (ord c1)) as Hsum.
  assert (g (ord c1) <= np_sum (map g (range2 0 256))); [|lra].
  apply Hsum; [|apply ord_in_range].
  intros y _. unfold g. pose proof (plogp_nonpos _ (Hrange y)). lra.
Qed.

Lemma count_one_value (data : bytes) (c : byte) (x : Z) :
  (forall c', c' ∈ data -> c' = c) ->
  Detector.count x data = (if decide (x = ord c) then length data else 0)%nat.
Proof.
  unfold Detector.count. induction data as [|d data IH]; intros Hsame.
  - by destruct (decide _).
  - assert (d = c) as -> by (apply Hsame; left).
    assert (forall c', c' ∈ data -> c' = c) as Hrest by (intros c' Hc'; apply Hsame; by right).
    specialize (IH Hrest). destruct (decide (x = ord c)) as [-> | Hx].
    + rewrite filter_cons_True by done. simpl. by rewrite IH.
    + rewrite filter_cons_False by done. done.
Qed.

Lemma entropy_one_value (data : bytes) :
  (forall c1 c2, c1 ∈ data -> c2 ∈ data -> c1 = c2) -> _calculate_entropy data = 0.
Proof.
  intros Hsame. destruct (decide (data = [])) as [-> | Hne]; [done|].
  assert (exists c, c ∈ data) as [c Hc] by (destruct data as [|c ?]; [done | exists c; left]).
  pose proof (length_pos_INR data Hne) as Hn.
  rewrite (entropy_equal_counts data (length data)).
  - replace (INR (length data) / INR (length data)) with 1 by (field; lra).
    apply log2_1.
  - done.
  - destruct data; [done | simpl; lia].
  - rewrite byte_counts_range. apply Forall_forall.
    intros n (x & -> & _)%list_elem_of_fmap.
    rewrite (count_one_value data c x) by (intros c' Hc'; by apply Hsame).
    destruct (decide _); auto.
Qed.

Lemma entropy_zero_one_value (data : bytes) :
  _calculate_entropy data = 0
  <-> forall c1 c2, c1 ∈ data -> c2 ∈ data -> c1 = c2.
Proof.
  split; [|apply entropy_one_value].
  intros Hzero c1 c2 H1 H2. destruct (decide (c1 = c2)) as [|Hne]; [done|].
  pose proof (entropy_two_values data c1 c2 H1 H2 Hne). lra.
Qed.

End entropy_zero.

(** X23.  The entropy is never negative, and it is exactly 0 for the
    buffers that hold at most one byte value, the empty buffer and the
    all-zero buffers of any length among them, and for no others: as soon
    as two different byte values occur the entropy is above 0. *)
Theorem entropy_zero_iff_one_value (data : bytes) :
  (0 <= _calculate_entropy data)%R
  /\ (_calculate_entropy data = 0%R
      <-> forall c1 c2, c1 ∈ data -> c2 ∈ data -> c1 = c2)
  /\ (forall (n : nat) (c : byte), _calculate_entropy (replicate n c) = 0%R).
Proof.
  split; [apply entropy_range|]. split; [apply entropy_zero_one_value|].
  intros n c. apply entropy_one_value.
  intros c1 c2 [-> _]%elem_of_replicate [-> _]%elem_of_replicate. done.
Qed.
